(** * Tiled (Qt): the map scene, the terrain view and the tileset view

    A shallow embedding of [src/mapscene.cpp] ([MapScene]), of
    [terrainview.cpp] ([TerrainView::wheelEvent]) and of the inline accessor
    [TilesetView::tilesetModel] of [tilesetview.h].

    Conventions of the embedding.
    - A C++ [int] is a [Z].  Signed overflow, and the cast to [int] of a
      double outside the range of [int], are undefined behaviour in C++; the
      arithmetic below is the arithmetic of the code on every run that stays
      inside the range of [int] ([int_range], [castable]), and a theorem
      about a computed value assumes that the values concerned fit.
    - A [qreal] (a double) that the code only reads or casts is a rational
      [Q]: every finite double is one.  The cast [(int) q] truncates toward
      zero ([to_int]); the division of two [int]s truncates toward zero
      ([Z.quot]).  Where the code computes with doubles (a division, the sum
      inside [QRectF::right]) the rounded operation is a variable of the
      section, so that nothing is assumed about rounding.
    - A pointer that may be null is an [option]; a dereference goes through
      [deref], which is undefined on the null pointer.  The scene holds its
      document by pointer: the state records the document as it stands, and
      a change made by the document's owner is a step of its own
      ([reach_edit]).
    - Methods are state transformers in the monad [result]; what a method
      asks of other objects (repaints, calls on the brush) is recorded in log
      fields of the state, oldest entry first. *)

From Stdlib Require Import ZArith QArith Qround List Bool Lia.
Import ListNotations.

Local Open Scope Z_scope.

(** ** Undefined behaviour and the monad of method results *)

Inductive UB : Type :=
| NullDeref          (* [p->m()] on a null pointer *)
| IndexOutOfRange    (* [QList::at] outside [0, size) *)
| DivByZero          (* a division by an [int] that is zero *)
| BadStaticCast.     (* [static_cast] to a class the object is not of *)

Inductive result (A : Type) : Type :=
| Ok (a : A)
| Undefined (u : UB)
| OutOfFuel.

Arguments Ok {A} a.
Arguments Undefined {A} u.
Arguments OutOfFuel {A}.

Definition bind {A B : Type} (r : result A) (k : A -> result B) : result B :=
  match r with
  | Ok a => k a
  | Undefined u => Undefined u
  | OutOfFuel => OutOfFuel
  end.

Notation "x <- r ;; k" := (bind r (fun x => k))
  (at level 61, r at next level, right associativity).

Definition deref {A : Type} (p : option A) : result A :=
  match p with
  | Some a => Ok a
  | None => Undefined NullDeref
  end.

Definition is_null {A : Type} (p : option A) : bool :=
  match p with
  | Some _ => false
  | None => true
  end.

(** [(int) q] for a double [q]: truncation toward zero.  The cast is
    defined in C++ when the truncated value fits an [int] ([castable],
    below). *)
Definition to_int (q : Q) : Z := Z.quot (Qnum q) (Zpos (Qden q)).

(** The values of an [int], and the doubles whose cast to [int] is defined. *)
Definition int_min : Z := -2147483648.
Definition int_max : Z := 2147483647.

Definition int_range (z : Z) : Prop := int_min <= z <= int_max.

Definition castable (q : Q) : Prop := int_range (to_int q).

(** Closes a goal [int_range z] or [castable q] on closed terms. *)
Ltac in_range := vm_compute; split; discriminate.

(** [a / b] on [int]s. *)
Definition int_div (a b : Z) : result Z :=
  if b =? 0 then Undefined DivByZero else Ok (Z.quot a b).

(** [QList::at]. *)
Definition at_ {A : Type} (l : list A) (i : Z) : result A :=
  if (0 <=? i) && (i <? Z.of_nat (length l)) then
    match nth_error l (Z.to_nat i) with
    | Some a => Ok a
    | None => Undefined IndexOutOfRange
    end
  else Undefined IndexOutOfRange.

(** ** The map data the scene traverses *)

Record MapObject : Type := { mo_x : Q; mo_y : Q }.

Record TileLayer : Type := { tl_x : Z; tl_y : Z }.

Record ObjectGroup : Type := { objects : list MapObject }.

(** A [Layer*] by its dynamic class. *)
Inductive Layer : Type :=
| IsTileLayer (tl : TileLayer)
| IsObjectGroup (og : ObjectGroup)
| PlainLayer.

(** [dynamic_cast<TileLayer*>(layer)] and [dynamic_cast<ObjectGroup*>(layer)]. *)
Definition as_TileLayer (l : Layer) : option TileLayer :=
  match l with IsTileLayer tl => Some tl | _ => None end.

Definition as_ObjectGroup (l : Layer) : option ObjectGroup :=
  match l with IsObjectGroup og => Some og | _ => None end.

Record Map : Type := {
  width : Z;
  height : Z;
  tileWidth : Z;
  tileHeight : Z;
  layers : list Layer
}.

Record MapDocument : Type := {
  map : Map;
  currentLayer : Z
}.

Record QRect : Type := { qr_x : Z; qr_y : Z; qr_w : Z; qr_h : Z }.

Record QRectF : Type := { rf_x : Q; rf_y : Q; rf_w : Q; rf_h : Q }.

(** ** MapScene *)

Module MapScene.

(** What the scene has set on its brush item. *)
Record BrushItem : Type := {
  zValue : Z;
  visible : bool;
  tilePos : Z * Z;
  brushDocument : option MapDocument
}.

Definition setZValue (z : Z) (b : BrushItem) : BrushItem :=
  {| zValue := z; visible := visible b; tilePos := tilePos b;
     brushDocument := brushDocument b |}.

Definition setVisible (v : bool) (b : BrushItem) : BrushItem :=
  {| zValue := zValue b; visible := v; tilePos := tilePos b;
     brushDocument := brushDocument b |}.

Definition setTilePos (x y : Z) (b : BrushItem) : BrushItem :=
  {| zValue := zValue b; visible := visible b; tilePos := (x, y);
     brushDocument := brushDocument b |}.

Definition setBrushDocument (d : option MapDocument) (b : BrushItem) : BrushItem :=
  {| zValue := zValue b; visible := visible b; tilePos := tilePos b;
     brushDocument := d |}.

(** An item of the scene: how it was constructed and what was set on it
    before [addItem].  [BrushRef] is the scene's own [mBrush]. *)
Inductive SceneItem : Type :=
| BrushRef
| TileLayerItem (tl : TileLayer) (pos : Z * Z) (z : Z)
| MapObjectItem (o : MapObject) (pos : Q * Q) (z : Z)
| TileSelectionItem (d : MapDocument) (z : Z).

Inductive PaintCall : Type := BeginPaint | EndPaint.

(** [update()] and [update(mMapDocument->toPixelCoordinates(r))]; the
    conversion belongs to the document and stays symbolic. *)
Inductive Repaint : Type :=
| UpdateAll
| UpdatePixelsOf (d : MapDocument) (r : QRect).

Inductive Sender : Type := TheDocument | TheLayerModel.

Inductive Connection : Type :=
| RegionChanged_repaintRegion
| RowsInserted_refreshScene
| RowsRemoved_refreshScene.

Definition sender (c : Connection) : Sender :=
  match c with
  | RegionChanged_repaintRegion => TheDocument
  | RowsInserted_refreshScene | RowsRemoved_refreshScene => TheLayerModel
  end.

Record t : Type := {
  mMapDocument : option MapDocument;
  mBrush : BrushItem;
  mGridVisible : bool;
  mBrushVisible : bool;
  mPainting : bool;
  (* the part of QGraphicsScene the code acts on *)
  items : list SceneItem;
  sceneRect : Z * Z * Z * Z;
  connections : list Connection;
  (* logs: repaint requests, brush paint calls, [mBrush->setVisible] calls *)
  repaints : list Repaint;
  paintCalls : list PaintCall;
  brushShows : list bool;
  (* the brush object has been deleted *)
  brushDeleted : bool
}.

Definition with_document (d : option MapDocument) (s : t) : t :=
  {| mMapDocument := d; mBrush := mBrush s; mGridVisible := mGridVisible s;
     mBrushVisible := mBrushVisible s; mPainting := mPainting s;
     items := items s; sceneRect := sceneRect s;
     connections := connections s;
     repaints := repaints s; paintCalls := paintCalls s;
     brushShows := brushShows s; brushDeleted := brushDeleted s |}.

Definition with_brush (b : BrushItem) (s : t) : t :=
  {| mMapDocument := mMapDocument s; mBrush := b; mGridVisible := mGridVisible s;
     mBrushVisible := mBrushVisible s; mPainting := mPainting s;
     items := items s; sceneRect := sceneRect s;
     connections := connections s;
     repaints := repaints s; paintCalls := paintCalls s;
     brushShows := brushShows s; brushDeleted := brushDeleted s |}.

Definition with_gridVisible (v : bool) (s : t) : t :=
  {| mMapDocument := mMapDocument s; mBrush := mBrush s; mGridVisible := v;
     mBrushVisible := mBrushVisible s; mPainting := mPainting s;
     items := items s; sceneRect := sceneRect s;
     connections := connections s;
     repaints := repaints s; paintCalls := paintCalls s;
     brushShows := brushShows s; brushDeleted := brushDeleted s |}.

Definition with_brushVisible (v : bool) (s : t) : t :=
  {| mMapDocument := mMapDocument s; mBrush := mBrush s;
     mGridVisible := mGridVisible s;
     mBrushVisible := v; mPainting := mPainting s;
     items := items s; sceneRect := sceneRect s;
     connections := connections s;
     repaints := repaints s; paintCalls := paintCalls s;
     brushShows := brushShows s; brushDeleted := brushDeleted s |}.

Definition with_painting (v : bool) (s : t) : t :=
  {| mMapDocument := mMapDocument s; mBrush := mBrush s;
     mGridVisible := mGridVisible s;
     mBrushVisible := mBrushVisible s; mPainting := v;
     items := items s; sceneRect := sceneRect s;
     connections := connections s;
     repaints := repaints s; paintCalls := paintCalls s;
     brushShows := brushShows s; brushDeleted := brushDeleted s |}.

Definition with_items (l : list SceneItem) (s : t) : t :=
  {| mMapDocument := mMapDocument s; mBrush := mBrush s;
     mGridVisible := mGridVisible s;
     mBrushVisible := mBrushVisible s; mPainting := mPainting s;
     items := l; sceneRect := sceneRect s;
     connections := connections s;
     repaints := repaints s; paintCalls := paintCalls s;
     brushShows := brushShows s; brushDeleted := brushDeleted s |}.

Definition setSceneRect (r : Z * Z * Z * Z) (s : t) : t :=
  {| mMapDocument := mMapDocument s; mBrush := mBrush s;
     mGridVisible := mGridVisible s;
     mBrushVisible := mBrushVisible s; mPainting := mPainting s;
     items := items s; sceneRect := r;
     connections := connections s;
     repaints := repaints s; paintCalls := paintCalls s;
     brushShows := brushShows s; brushDeleted := brushDeleted s |}.

Definition with_connections (c : list Connection) (s : t) : t :=
  {| mMapDocument := mMapDocument s; mBrush := mBrush s;
     mGridVisible := mGridVisible s;
     mBrushVisible := mBrushVisible s; mPainting := mPainting s;
     items := items s; sceneRect := sceneRect s;
     connections := c;
     repaints := repaints s; paintCalls := paintCalls s;
     brushShows := brushShows s; brushDeleted := brushDeleted s |}.

(** [QGraphicsScene::update]: one more repaint request. *)
Definition update (r : Repaint) (s : t) : t :=
  {| mMapDocument := mMapDocument s; mBrush := mBrush s;
     mGridVisible := mGridVisible s;
     mBrushVisible := mBrushVisible s; mPainting := mPainting s;
     items := items s; sceneRect := sceneRect s;
     connections := connections s;
     repaints := repaints s ++ [r]; paintCalls := paintCalls s;
     brushShows := brushShows s; brushDeleted := brushDeleted s |}.

(** [mBrush->beginPaint()] and [mBrush->endPaint()]. *)
Definition brushPaint (c : PaintCall) (s : t) : t :=
  {| mMapDocument := mMapDocument s; mBrush := mBrush s;
     mGridVisible := mGridVisible s;
     mBrushVisible := mBrushVisible s; mPainting := mPainting s;
     items := items s; sceneRect := sceneRect s;
     connections := connections s;
     repaints := repaints s; paintCalls := paintCalls s ++ [c];
     brushShows := brushShows s; brushDeleted := brushDeleted s |}.

(** [mBrush->setVisible(v)]. *)
Definition brush_setVisible (v : bool) (s : t) : t :=
  {| mMapDocument := mMapDocument s; mBrush := setVisible v (mBrush s);
     mGridVisible := mGridVisible s;
     mBrushVisible := mBrushVisible s; mPainting := mPainting s;
     items := items s; sceneRect := sceneRect s;
     connections := connections s;
     repaints := repaints s; paintCalls := paintCalls s;
     brushShows := brushShows s ++ [v]; brushDeleted := brushDeleted s |}.

Definition addItem (i : SceneItem) (s : t) : t := with_items (items s ++ [i]) s.

Definition item_eqb_brush (i : SceneItem) : bool :=
  match i with BrushRef => true | _ => false end.

Definition removeItem_brush (s : t) : t :=
  with_items (filter (fun i => negb (item_eqb_brush i)) (items s)) s.

(** [QGraphicsScene::clear] removes every item from the scene and deletes
    it; the brush object is gone if it was among them.  ([removeItem] hands
    the item back without deleting it.) *)
Definition clear (s : t) : t :=
  {| mMapDocument := mMapDocument s; mBrush := mBrush s;
     mGridVisible := mGridVisible s;
     mBrushVisible := mBrushVisible s; mPainting := mPainting s;
     items := []; sceneRect := sceneRect s;
     connections := connections s;
     repaints := repaints s; paintCalls := paintCalls s;
     brushShows := brushShows s;
     brushDeleted := brushDeleted s || existsb item_eqb_brush (items s) |}.

(** The constructor; [fresh] is what [new BrushItem] gives.  The background
    colour it sets plays no part below. *)
Definition new (fresh : BrushItem) : t :=
  let b := setVisible false (setZValue 10000 fresh) in
  {| mMapDocument := None; mBrush := b; mGridVisible := true;
     mBrushVisible := false; mPainting := false;
     items := [BrushRef]; sceneRect := (0, 0, 0, 0);
     connections := [];
     repaints := []; paintCalls := []; brushShows := [false];
     brushDeleted := false |}.

(** *** refreshScene *)

(** The body of [foreach (MapObject *object, og->objects())]; the
    accumulator is the local [z] and the scene. *)
Definition addObjectItem (acc : Z * t) (object : MapObject) : Z * t :=
  let '(z, s) := acc in
  (z + 1, addItem (MapObjectItem object (mo_x object, mo_y object) z) s).

(** The body of [foreach (Layer *layer, map->layers())]. *)
Definition addLayerItems (m : Map) (acc : Z * t) (layer : Layer) : Z * t :=
  let '(z, s) := acc in
  match as_TileLayer layer with
  | Some tl =>
      (z + 1,
       addItem (TileLayerItem tl (tl_x tl * tileWidth m, tl_y tl * tileHeight m) z) s)
  | None =>
      match as_ObjectGroup layer with
      | Some og => fold_left addObjectItem (objects og) (z, s)
      | None => (z, s)
      end
  end.

(** The products and sums, here and in [addLayerItems], are those of the
    code as long as they fit an [int] ([refresh_fits], below). *)
Definition refreshScene (s : t) : result t :=
  let s := addItem BrushRef (clear (removeItem_brush s)) in
  if is_null (mMapDocument s) then Ok (setSceneRect (0, 0, 0, 0) s)
  else
    doc <- deref (mMapDocument s) ;;
    let m := map doc in
    let s := setSceneRect
               (0, 0, width m * tileWidth m + 1, height m * tileHeight m + 1) s in
    let s := snd (fold_left (addLayerItems m) (layers m) (0, s)) in
    Ok (addItem (TileSelectionItem doc (10000 - 1)) s).

(** *** repaintRegion; the region is the list [region.rects()] *)

Definition repaintRect (acc : result t) (r : QRect) : result t :=
  s <- acc ;;
  doc <- deref (mMapDocument s) ;;
  Ok (update (UpdatePixelsOf doc r) s).

Definition repaintRegion (region : list QRect) (s : t) : result t :=
  fold_left repaintRect region (Ok s).

(** *** The visibility setters *)

Definition setGridVisible (visible : bool) (s : t) : result t :=
  if Bool.eqb (mGridVisible s) visible then Ok s
  else Ok (update UpdateAll (with_gridVisible visible s)).

Definition updateBrushVisibility (s : t) : result t :=
  showBrush <-
    (if mBrushVisible s && negb (is_null (mMapDocument s)) then
       doc <- deref (mMapDocument s) ;;
       let currentLayer := currentLayer doc in
       doc <- deref (mMapDocument s) ;;
       layer <- at_ (layers (map doc)) currentLayer ;;
       Ok (match as_TileLayer layer with Some _ => true | None => false end)
     else Ok false) ;;
  Ok (brush_setVisible showBrush s).

Definition setBrushVisible (visible : bool) (s : t) : result t :=
  if Bool.eqb (mBrushVisible s) visible then Ok s
  else updateBrushVisibility (with_brushVisible visible s).

(** *** setMapDocument *)

Definition disconnect (from : Sender) (s : t) : t :=
  with_connections
    (filter (fun c => match sender c, from with
                      | TheDocument, TheDocument => false
                      | TheLayerModel, TheLayerModel => false
                      | _, _ => true
                      end) (connections s)) s.

Definition connect (c : Connection) (s : t) : t :=
  with_connections (connections s ++ [c]) s.

Definition setMapDocument (mapDocument : option MapDocument) (s : t) : result t :=
  s <- (if negb (is_null (mMapDocument s)) then
          _ <- deref (mMapDocument s) ;;
          let s := disconnect TheDocument s in
          _ <- deref (mMapDocument s) ;;
          Ok (disconnect TheLayerModel s)
        else Ok s) ;;
  let s := with_document mapDocument s in
  s <- refreshScene s ;;
  s <- (if negb (is_null (mMapDocument s)) then
          let s := connect RegionChanged_repaintRegion s in
          _ <- deref (mMapDocument s) ;;
          let s := connect RowsInserted_refreshScene s in
          Ok (connect RowsRemoved_refreshScene s)
        else Ok s) ;;
  let s := with_brush (setBrushDocument mapDocument (mBrush s)) s in
  updateBrushVisibility s.

(** *** Events *)

Inductive QEventType : Type := Enter | Leave | OtherEvent.

(** [handledByBase] is what [QGraphicsScene::event] answers for the event. *)
Record QEvent : Type := { type : QEventType; handledByBase : bool }.

Definition event (e : QEvent) (s : t) : result (bool * t) :=
  s <- match type e with
       | Enter => setBrushVisible true s
       | Leave => setBrushVisible false s
       | OtherEvent => Ok s
       end ;;
  Ok (handledByBase e, s).

(** [acceptedByBase] is [isAccepted()] once [QGraphicsScene::mouseMoveEvent]
    has offered the event to the items. *)
Record QGraphicsSceneMouseEvent : Type := {
  scenePos : Q * Q;
  acceptedByBase : bool
}.

Definition mouseMoveEvent (mouseEvent : QGraphicsSceneMouseEvent) (s : t) : result t :=
  if is_null (mMapDocument s) then Ok s
  else if acceptedByBase mouseEvent then Ok s
  else
    doc <- deref (mMapDocument s) ;;
    let m := map doc in
    let tileWidth := tileWidth m in
    let tileHeight := tileHeight m in
    let pos := scenePos mouseEvent in
    tileX <- int_div (to_int (fst pos)) tileWidth ;;
    tileY <- int_div (to_int (snd pos)) tileHeight ;;
    Ok (with_brush (setTilePos tileX tileY (mBrush s)) s).

Definition mousePressEvent (s : t) : result t :=
  if visible (mBrush s) then Ok (with_painting true (brushPaint BeginPaint s))
  else Ok s.

Definition mouseReleaseEvent (s : t) : result t :=
  if mPainting s then Ok (with_painting false (brushPaint EndPaint s))
  else Ok s.

(** *** drawForeground *)

Inductive PainterCmd : Type :=
| SetPen_black
| SetOpacity_half
| DrawLine (x1 y1 x2 y2 : Z).

(** [for (int i = start; i < stop; i += step) drawLine(...)]: the lines
    drawn, in order.  The loop of the code has no bound of its own. *)
Fixpoint for_lines (fuel : nat) (i stop step : Z) (line : Z -> PainterCmd)
  : result (list PainterCmd) :=
  if i <? stop then
    match fuel with
    | O => OutOfFuel
    | S fuel' =>
        rest <- for_lines fuel' (i + step) stop step line ;;
        Ok (line i :: rest)
    end
  else Ok [].

Section Foreground.

(** The rounded double operations: [fdiv q n] is [q / n] for an [int] [n],
    [fadd] the sum inside [QRectF::right] and [QRectF::bottom]. *)
Variable fdiv : Q -> Z -> Q.
Variable fadd : Q -> Q -> Q.

Definition left (r : QRectF) : Q := rf_x r.
Definition top (r : QRectF) : Q := rf_y r.
Definition right (r : QRectF) : Q := fadd (rf_x r) (rf_w r).
Definition bottom (r : QRectF) : Q := fadd (rf_y r) (rf_h r).

Definition startX (m : Map) (rect : QRectF) : Z :=
  to_int (fdiv (rf_x rect) (tileWidth m)) * tileWidth m.
Definition startY (m : Map) (rect : QRectF) : Z :=
  to_int (fdiv (rf_y rect) (tileHeight m)) * tileHeight m.
Definition endX (m : Map) (rect : QRectF) : Z :=
  Z.min (to_int (right rect)) (width m * tileWidth m + 1).
Definition endY (m : Map) (rect : QRectF) : Z :=
  Z.min (to_int (bottom rect)) (height m * tileHeight m + 1).

(** The commands sent to the painter.  A double divided by zero is an
    infinity or a NaN, and its cast to [int] is undefined.  The other
    casts, products and sums are those of the code as long as they fit an
    [int] ([foreground_fits], below). *)
Definition drawForeground (fuel : nat) (rect : QRectF) (s : t)
  : result (list PainterCmd) :=
  if is_null (mMapDocument s) || negb (mGridVisible s) then Ok []
  else
    doc <- deref (mMapDocument s) ;;
    let m := map doc in
    if (tileWidth m =? 0) || (tileHeight m =? 0) then Undefined DivByZero
    else
      vertical <-
        for_lines fuel (startX m rect) (endX m rect) (tileWidth m)
          (fun x => DrawLine x (to_int (top rect)) x (endY m rect - 1)) ;;
      horizontal <-
        for_lines fuel (startY m rect) (endY m rect) (tileHeight m)
          (fun y => DrawLine (to_int (left rect)) y (endX m rect - 1) y) ;;
      Ok ([SetPen_black; SetOpacity_half] ++ vertical ++ horizontal).

End Foreground.

(** *** The scene as a state machine *)

Inductive Call : Type :=
| CallSetMapDocument (mapDocument : option MapDocument)
| CallRefreshScene
| CallRepaintRegion (region : list QRect)
| CallSetGridVisible (visible : bool)
| CallSetBrushVisible (visible : bool)
| CallUpdateBrushVisibility
| CallEvent (e : QEvent)
| CallMouseMoveEvent (e : QGraphicsSceneMouseEvent)
| CallMousePressEvent
| CallMouseReleaseEvent.

Definition run (c : Call) (s : t) : result t :=
  match c with
  | CallSetMapDocument d => setMapDocument d s
  | CallRefreshScene => refreshScene s
  | CallRepaintRegion region => repaintRegion region s
  | CallSetGridVisible v => setGridVisible v s
  | CallSetBrushVisible v => setBrushVisible v s
  | CallUpdateBrushVisibility => updateBrushVisibility s
  | CallEvent e => r <- event e s ;; Ok (snd r)
  | CallMouseMoveEvent e => mouseMoveEvent e s
  | CallMousePressEvent => mousePressEvent s
  | CallMouseReleaseEvent => mouseReleaseEvent s
  end.

Fixpoint runs (cs : list Call) (s : t) : result t :=
  match cs with
  | [] => Ok s
  | c :: rest => s' <- run c s ;; runs rest s'
  end.

(** The states a scene object goes through: constructed, then any calls
    that return.  In between, the owner of the installed document may
    change it (its current layer, its layers, its map) without the scene
    being called: the scene's pointer then shows the new contents. *)
Inductive reachable : t -> Prop :=
| reach_new : forall fresh, reachable (new fresh)
| reach_run : forall c s s', reachable s -> run c s = Ok s' -> reachable s'
| reach_edit : forall s d d',
    reachable s -> mMapDocument s = Some d ->
    reachable (with_document (Some d') s).

End MapScene.

(** ** TerrainView *)

Module TerrainView.

(** [Qt::ControlModifier]. *)
Definition ControlModifier : Z := 0x04000000.

Inductive Orientation : Type := Horizontal | Vertical.

Definition orientation_eqb (a b : Orientation) : bool :=
  match a, b with
  | Horizontal, Horizontal | Vertical, Vertical => true
  | _, _ => false
  end.

(** [modifiers] is the value of the [Qt::KeyboardModifiers] flags. *)
Record QWheelEvent : Type := {
  modifiers : Z;
  orientation : Orientation;
  delta : Z
}.

(** The calls the handler makes on other objects. *)
Inductive Forwarded : Type :=
| HandleWheelDelta (delta : Z)
| QTreeView_wheelEvent (e : QWheelEvent).

Section View.

(** [Zoomable] and the base class with the methods called on them. *)
Variable Zoomable : Type.
Variable handleWheelDelta : Z -> Zoomable -> Zoomable.
Variable QTreeView : Type.
Variable baseWheelEvent : QWheelEvent -> QTreeView -> QTreeView.

Record t : Type := {
  mZoomable : Zoomable;
  base : QTreeView;
  calls : list Forwarded
}.

Definition wheelEvent (event : QWheelEvent) (v : t) : t :=
  if negb (Z.land (modifiers event) ControlModifier =? 0)
     && orientation_eqb (orientation event) Vertical
  then
    {| mZoomable := handleWheelDelta (delta event) (mZoomable v);
       base := base v;
       calls := calls v ++ [HandleWheelDelta (delta event)] |}
  else
    {| mZoomable := mZoomable v;
       base := baseWheelEvent event (base v);
       calls := calls v ++ [QTreeView_wheelEvent event] |}.

End View.

Arguments mZoomable {Zoomable QTreeView} _.
Arguments base {Zoomable QTreeView} _.
Arguments calls {Zoomable QTreeView} _.
Arguments wheelEvent {Zoomable} handleWheelDelta {QTreeView} baseWheelEvent event v.

(** The Control modifier is held: bit 26 of the flags. *)
Definition controlHeld (event : QWheelEvent) : bool :=
  Z.testbit (modifiers event) 26.

(** A view whose zoomable is its scale in percent and whose base class
    counts the events it gets; a wheel step changes the scale by a tenth
    of the delta. *)
Definition view0 : t Z nat := {| mZoomable := 100; base := O; calls := [] |}.

Definition zoomBy (delta scale : Z) : Z := scale + delta / 10.

Definition countEvent (e : QWheelEvent) (n : nat) : nat := S n.

(** Control and Shift held, wheel turned away from the user. *)
Definition ctrlWheel : QWheelEvent :=
  {| modifiers := 0x06000000; orientation := Vertical; delta := 120 |}.

Definition plainWheel : QWheelEvent :=
  {| modifiers := 0; orientation := Vertical; delta := 120 |}.

Definition ctrlTilt : QWheelEvent :=
  {| modifiers := 0x04000000; orientation := Horizontal; delta := -120 |}.

End TerrainView.

(** ** TilesetView *)

Module TilesetView.

(** The dynamic class of a [QAbstractItemModel] object. *)
Inductive ModelClass : Type := TilesetModelClass | OtherModelClass.

(** Objects are named by their address; a pointer is null or an address. *)
Definition pointer : Type := option N.

Record Heap : Type := { dynamicClass : N -> option ModelClass }.

Record t : Type := { model : pointer }.

(** [static_cast<TilesetModel *>(p)]: no test is made; the null pointer
    stays null, a pointer to a [TilesetModel] keeps its value, and for any
    other object the cast is undefined. *)
Definition static_cast_TilesetModel (h : Heap) (p : pointer) : result pointer :=
  match p with
  | None => Ok None
  | Some a =>
      match dynamicClass h a with
      | Some TilesetModelClass => Ok (Some a)
      | _ => Undefined BadStaticCast
      end
  end.

Definition tilesetModel (h : Heap) (v : t) : result pointer :=
  static_cast_TilesetModel h (model v).

(** The precondition of the class: the installed model is a [TilesetModel]. *)
Definition modelIsTilesetModel (h : Heap) (v : t) : Prop :=
  exists a, model v = Some a /\ dynamicClass h a = Some TilesetModelClass.

Definition heap1 : Heap :=
  {| dynamicClass := fun a =>
       if N.eqb a 16 then Some TilesetModelClass
       else if N.eqb a 32 then Some OtherModelClass
       else None |}.

Definition view1 : t := {| model := Some 16%N |}.

Definition view2 : t := {| model := Some 32%N |}.

End TilesetView.

(** ** Notions the properties are stated with *)

Module Props.
Import MapScene.

(** The z-value of an item of scene [s]. *)
Definition z_of (s : t) (i : SceneItem) : Z :=
  match i with
  | BrushRef => zValue (mBrush s)
  | TileLayerItem _ _ z => z
  | MapObjectItem _ _ z => z
  | TileSelectionItem _ z => z
  end.

Definition is_layer_item (i : SceneItem) : bool :=
  match i with
  | TileLayerItem _ _ _ | MapObjectItem _ _ _ => true
  | _ => false
  end.

(** An item without its z-value: what it shows and where. *)
Inductive Placed : Type :=
| PlacedTileLayer (tl : TileLayer) (pos : Z * Z)
| PlacedObject (o : MapObject) (pos : Q * Q).

Definition placed (i : SceneItem) : option Placed :=
  match i with
  | TileLayerItem tl pos _ => Some (PlacedTileLayer tl pos)
  | MapObjectItem o pos _ => Some (PlacedObject o pos)
  | _ => None
  end.

(** The items asked for, layer by layer: one per tile layer, at the layer's
    tile coordinates times the tile size; one per object of an object group,
    at the object's coordinates; none for any other layer. *)
Definition items_of_layer (m : Map) (l : Layer) : list Placed :=
  match l with
  | IsTileLayer tl =>
      [PlacedTileLayer tl (tl_x tl * tileWidth m, tl_y tl * tileHeight m)]
  | IsObjectGroup og =>
      List.map (fun o => PlacedObject o (mo_x o, mo_y o)) (objects og)
  | PlainLayer => []
  end.

Definition items_of_map (m : Map) : list Placed :=
  flat_map (items_of_layer m) (layers m).

(** The [int] arithmetic of [refreshScene] stays in range on map [m]: the
    sides of the scene rectangle, the position of every tile layer, and the
    counter [z], which ends at the number of items. *)
Definition layer_fits (m : Map) (l : Layer) : Prop :=
  match l with
  | IsTileLayer tl =>
      int_range (tl_x tl * tileWidth m) /\ int_range (tl_y tl * tileHeight m)
  | _ => True
  end.

Definition refresh_fits (m : Map) : Prop :=
  int_range (width m * tileWidth m) /\
  int_range (width m * tileWidth m + 1) /\
  int_range (height m * tileHeight m) /\
  int_range (height m * tileHeight m + 1) /\
  Forall (layer_fits m) (layers m) /\
  int_range (Z.of_nat (length (items_of_map m))).

(** The items the two loops of [refreshScene] add when the counter stands
    at [z], as a list. *)
Fixpoint object_items (os : list MapObject) (z : Z) : list SceneItem :=
  match os with
  | [] => []
  | o :: rest => MapObjectItem o (mo_x o, mo_y o) z :: object_items rest (z + 1)
  end.

Fixpoint layer_items (m : Map) (ls : list Layer) (z : Z) : list SceneItem :=
  match ls with
  | [] => []
  | IsTileLayer tl :: rest =>
      TileLayerItem tl (tl_x tl * tileWidth m, tl_y tl * tileHeight m) z
        :: layer_items m rest (z + 1)
  | IsObjectGroup og :: rest =>
      object_items (objects og) z
        ++ layer_items m rest (z + Z.of_nat (length (objects og)))
  | PlainLayer :: rest => layer_items m rest z
  end.

(** The scene [refreshScene] leaves behind when document [d] is set. *)
Definition refreshed (d : MapDocument) (s : t) : t :=
  with_items
    (BrushRef :: layer_items (map d) (layers (map d)) 0
       ++ [TileSelectionItem d 9999])
    (setSceneRect
       (0, 0, width (map d) * tileWidth (map d) + 1,
        height (map d) * tileHeight (map d) + 1) s).

(** The layer at the document's current-layer index is a tile layer. *)
Definition currentIsTileLayer (d : MapDocument) : bool :=
  match at_ (layers (map d)) (currentLayer d) with
  | Ok (IsTileLayer _) => true
  | _ => false
  end.

Definition currentLayerValid (d : MapDocument) : Prop :=
  0 <= currentLayer d < Z.of_nat (length (layers (map d))).

(** The brush is to be shown: the flag is set, a document is present and
    its current layer is a tile layer. *)
Definition brushShown (s : t) : bool :=
  mBrushVisible s &&
  match mMapDocument s with
  | Some d => currentIsTileLayer d
  | None => false
  end.

(** [brushShown] as a proposition. *)
Definition tileLayerSelected (s : t) : Prop :=
  mBrushVisible s = true /\
  exists d tl,
    mMapDocument s = Some d /\
    at_ (layers (map d)) (currentLayer d) = Ok (IsTileLayer tl).

(** Reads a log of paint calls from its start with [depth] calls of
    [beginPaint] not yet matched; [None] when an [endPaint] finds none. *)
Fixpoint unmatched (depth : nat) (log : list PaintCall) : option nat :=
  match log with
  | [] => Some depth
  | BeginPaint :: rest => unmatched (S depth) rest
  | EndPaint :: rest =>
      match depth with
      | O => None
      | S d => unmatched d rest
      end
  end.

(** What holds of a scene object between calls. *)
Definition invariant (s : t) : Prop :=
  zValue (mBrush s) = 10000 /\
  (visible (mBrush s) = true ->
   mBrushVisible s = true /\ mMapDocument s <> None) /\
  (exists depth, unmatched 0 (paintCalls s) = Some depth /\
                 (mPainting s = true -> (1 <= depth)%nat)) /\
  (mMapDocument s = None -> connections s = []).

(** The tile cell containing a scene coordinate. *)
Definition cell (coordinate : Q) (tileSize : Z) : Z :=
  Qfloor (coordinate / inject_Z tileSize).

(** Exact double operations, for the examples. *)
Definition exact_div (q : Q) (n : Z) : Q := Qred (q / inject_Z n).
Definition exact_add (a b : Q) : Q := Qred (a + b).

(** *** Sample data *)

Definition fresh0 : BrushItem :=
  {| zValue := 0; visible := true; tilePos := (0, 0); brushDocument := None |}.

Definition ground : TileLayer := {| tl_x := 1; tl_y := 2 |}.

Definition things : ObjectGroup :=
  {| objects := [ {| mo_x := 5 # 1; mo_y := 7 # 1 |};
                  {| mo_x := 40 # 1; mo_y := 3 # 2 |} ] |}.

Definition map1 : Map :=
  {| width := 4; height := 3; tileWidth := 32; tileHeight := 16;
     layers := [IsTileLayer ground; IsObjectGroup things; PlainLayer] |}.

Definition doc1 : MapDocument := {| map := map1; currentLayer := 0 |}.

(** A one-tile map whose only layer holds 10000 objects. *)
Definition crowd : ObjectGroup :=
  {| objects := repeat {| mo_x := 0; mo_y := 0 |} (Z.to_nat 10000) |}.

Definition map_crowded : Map :=
  {| width := 1; height := 1; tileWidth := 32; tileHeight := 32;
     layers := [IsObjectGroup crowd] |}.

Definition doc_crowded : MapDocument := {| map := map_crowded; currentLayer := 0 |}.

(** A scene that was given [doc1]. *)
Definition scene1 : t :=
  match setMapDocument (Some doc1) (new fresh0) with
  | Ok s => s
  | _ => new fresh0
  end.

Definition rect0 : QRect := {| qr_x := 0; qr_y := 0; qr_w := 1; qr_h := 1 |}.

(** An exposed rectangle over the top left of the map, and one below it. *)
Definition exposed_inside : QRectF :=
  {| rf_x := 10 # 1; rf_y := 0; rf_w := 60 # 1; rf_h := 81 # 2 |}.

Definition exposed_below : QRectF :=
  {| rf_x := 0; rf_y := 100 # 1; rf_w := 50 # 1; rf_h := 50 # 1 |}.

(** The pointer at (70.5, 33) and at (-1, -1), offered to no item. *)
Definition move1 : QGraphicsSceneMouseEvent :=
  {| scenePos := (141 # 2, 33 # 1); acceptedByBase := false |}.

Definition move_outside : QGraphicsSceneMouseEvent :=
  {| scenePos := (-1 # 1, -1 # 1); acceptedByBase := false |}.

End Props.

(** ** Notions for the properties of whole runs *)

Module Usage.
Import MapScene Props.

(** The three connections [setMapDocument] makes for a document. *)
Definition wired : list Connection :=
  [RegionChanged_repaintRegion; RowsInserted_refreshScene;
   RowsRemoved_refreshScene].

(** How often the brush occurs among the items. *)
Definition brushCount (l : list SceneItem) : nat :=
  length (filter item_eqb_brush l).

Fixpoint countTileLayers (ls : list Layer) : nat :=
  match ls with
  | [] => O
  | IsTileLayer _ :: rest => S (countTileLayers rest)
  | _ :: rest => countTileLayers rest
  end.

Fixpoint countObjects (ls : list Layer) : nat :=
  match ls with
  | [] => O
  | IsObjectGroup og :: rest => (length (objects og) + countObjects rest)%nat
  | _ :: rest => countObjects rest
  end.

(** The scene rectangle [refreshScene] sets for a document pointer. *)
Definition sceneRectFor (d : option MapDocument) : Z * Z * Z * Z :=
  match d with
  | Some d =>
      (0, 0, width (map d) * tileWidth (map d) + 1,
       height (map d) * tileHeight (map d) + 1)
  | None => (0, 0, 0, 0)
  end.

(** What holds of the wiring and the geometry of a scene object between
    calls. *)
Definition wiring (s : t) : Prop :=
  connections s = (if is_null (mMapDocument s) then [] else wired) /\
  brushCount (items s) = 1%nat /\
  brushDeleted s = false.

(** The casts and the [int] arithmetic of [drawForeground] stay in range
    for map [m] and exposed rectangle [rect]: the six casts, the products
    and sums behind the four bounds, the far ends of the lines, and the
    last step of each loop. *)
Definition foreground_fits (fdiv : Q -> Z -> Q) (fadd : Q -> Q -> Q)
    (m : Map) (rect : QRectF) : Prop :=
  castable (fdiv (rf_x rect) (tileWidth m)) /\
  castable (fdiv (rf_y rect) (tileHeight m)) /\
  castable (left rect) /\ castable (top rect) /\
  castable (right fadd rect) /\ castable (bottom fadd rect) /\
  int_range (startX fdiv m rect) /\ int_range (startY fdiv m rect) /\
  int_range (width m * tileWidth m) /\ int_range (width m * tileWidth m + 1) /\
  int_range (height m * tileHeight m) /\ int_range (height m * tileHeight m + 1) /\
  int_range (endX fadd m rect - 1) /\ int_range (endY fadd m rect - 1) /\
  int_range (endX fadd m rect + tileWidth m) /\
  int_range (endY fadd m rect + tileHeight m).

(** The wheel handler run over a list of events, oldest first. *)
Definition wheelEvents {Zoomable QTreeView : Type}
    (handleWheelDelta : Z -> Zoomable -> Zoomable)
    (baseWheelEvent : TerrainView.QWheelEvent -> QTreeView -> QTreeView)
    (events : list TerrainView.QWheelEvent)
    (v : TerrainView.t Zoomable QTreeView) : TerrainView.t Zoomable QTreeView :=
  fold_left
    (fun v e => TerrainView.wheelEvent handleWheelDelta baseWheelEvent e v)
    events v.

(** The event zooms: Control is held and the wheel is the vertical one. *)
Definition zooms (e : TerrainView.QWheelEvent) : bool :=
  TerrainView.controlHeld e
  && TerrainView.orientation_eqb (TerrainView.orientation e) TerrainView.Vertical.

(** *** Sample data *)

(** A document whose map has no layer. *)
Definition map_bare : Map :=
  {| width := 2; height := 2; tileWidth := 32; tileHeight := 32; layers := [] |}.

Definition doc_bare : MapDocument := {| map := map_bare; currentLayer := 0 |}.

(** [scene1] while the pointer is over it, and while the button is down. *)
Definition scene_entered : t :=
  match setBrushVisible true scene1 with Ok s => s | _ => scene1 end.

Definition scene_painting : t :=
  match mousePressEvent scene_entered with Ok s => s | _ => scene_entered end.

(** [scene_entered] after the owner of the document has made the object
    group the current layer. *)
Definition doc1_objects : MapDocument := {| map := map1; currentLayer := 1 |}.

Definition scene_stale : t := with_document (Some doc1_objects) scene_entered.

(** [scene_entered] after two presses and one release. *)
Definition scene_two_presses : t :=
  match runs [CallMousePressEvent; CallMousePressEvent; CallMouseReleaseEvent]
             scene_entered with
  | Ok s => s
  | _ => scene_entered
  end.

(** The pointer on the last pixel column of the scene rectangle of [doc1]. *)
Definition move_edge : QGraphicsSceneMouseEvent :=
  {| scenePos := (257 # 2, 10 # 1); acceptedByBase := false |}.

(** The pointer half a tile left of the map. *)
Definition move_left : QGraphicsSceneMouseEvent :=
  {| scenePos := (-16 # 1, 10 # 1); acceptedByBase := false |}.

(** An exposed rectangle that covers the whole scene rectangle of [doc1]. *)
Definition exposed_all : QRectF :=
  {| rf_x := 0; rf_y := 0; rf_w := 129 # 1; rf_h := 49 # 1 |}.

(** A document whose map has tiles of width zero, and a scene with it. *)
Definition doc_flat : MapDocument :=
  {| map := {| width := 2; height := 2; tileWidth := 0; tileHeight := 32;
               layers := [IsTileLayer ground] |};
     currentLayer := 0 |}.

Definition scene_flat : t := with_document (Some doc_flat) (new fresh0).

Definition region2 : list QRect :=
  [rect0; {| qr_x := 1; qr_y := 1; qr_w := 2; qr_h := 2 |}].

End Usage.

(** * Properties *)

Import MapScene Props Usage.

(** ** Casts and divisions *)

Lemma to_int_inject_Z (n : Z) : to_int (inject_Z n) = n.
Proof. unfold to_int; simpl. apply Z.quot_1_r. Qed.

(** Truncating twice is truncating the exact quotient. *)
Lemma quot_to_int (q : Q) (n : Z) :
  n <> 0 -> Z.quot (to_int q) n = to_int (q / inject_Z n).
Proof.
  intros Hn. destruct q as [a b]. unfold to_int.
  destruct n as [|p|p]; [congruence| |]; cbn.
  - rewrite Z.mul_1_r, Pos2Z.inj_mul.
    apply Z.quot_quot; discriminate.
  - rewrite Pos2Z.inj_mul, <- Z.quot_quot by discriminate.
    replace (a * -1) with (- a) by lia.
    rewrite Z.quot_opp_l by discriminate.
    change (Z.neg p) with (- Z.pos p).
    rewrite Z.quot_opp_r by discriminate.
    rewrite Z.quot_opp_l by discriminate. reflexivity.
Qed.

Lemma to_int_floor (q : Q) : (0 <= q)%Q -> to_int q = Qfloor q.
Proof.
  destruct q as [a b]. unfold Qle, to_int, Qfloor; cbn. intros H.
  apply Z.quot_div_nonneg; lia.
Qed.

Lemma quot_to_int_cell (q : Q) (n : Z) :
  (0 <= q)%Q -> 0 < n -> Z.quot (to_int q) n = cell q n.
Proof.
  intros Hq Hn. unfold cell.
  rewrite quot_to_int by lia. apply to_int_floor.
  apply Qle_shift_div_l.
  - change 0%Q with (inject_Z 0). rewrite <- Zlt_Qlt. exact Hn.
  - rewrite Qmult_0_l. exact Hq.
Qed.

Lemma to_int_range (q : Q) (n : Z) :
  (0 <= q)%Q -> (q < inject_Z n)%Q -> 0 <= to_int q < n.
Proof.
  destruct q as [a b]. unfold Qle, Qlt, to_int; cbn. intros H0 Hn.
  split.
  - apply Z.quot_pos; lia.
  - apply Z.quot_lt_upper_bound; lia.
Qed.

Lemma to_int_opp (q : Q) : to_int (- q) = - to_int q.
Proof. destruct q as [a b]. unfold to_int; cbn. apply Z.quot_opp_l. discriminate. Qed.

Lemma to_int_within (q : Q) (n : Z) :
  (- inject_Z n < q)%Q -> (q < inject_Z n)%Q -> - n < to_int q < n.
Proof.
  intros Hlo Hhi.
  destruct (Qlt_le_dec q 0) as [Hneg|Hpos].
  - assert (H : 0 <= to_int (- q) < n).
    { apply to_int_range.
      - apply (Qopp_le_compat q 0). now apply Qlt_le_weak.
      - apply Qopp_lt_compat in Hlo. now rewrite Qopp_involutive in Hlo. }
    rewrite to_int_opp in H. lia.
  - pose proof (to_int_range q n Hpos Hhi). lia.
Qed.

Lemma to_int_on_integer (q : Q) (n : Z) :
  0 <= n -> (inject_Z n <= q)%Q -> (q < inject_Z (n + 1))%Q -> to_int q = n.
Proof.
  destruct q as [a b]. unfold Qle, Qlt, to_int; cbn. intros H0 Hlo Hhi.
  rewrite Z.quot_div_nonneg by lia.
  symmetry. apply (Z.div_unique a (Z.pos b) n (a - n * Z.pos b)); lia.
Qed.

Lemma quot_within (z n : Z) : - n < z < n -> Z.quot z n = 0.
Proof.
  intros H. destruct (Z.neg_nonneg_cases z) as [Hneg|Hpos].
  - assert (E : Z.quot (- z) n = 0) by (apply Z.quot_small; lia).
    rewrite Z.quot_opp_l in E by lia. lia.
  - apply Z.quot_small; lia.
Qed.

Lemma cell_left_of_zero (q : Q) (n : Z) :
  (q < 0)%Q -> (- inject_Z n < q)%Q -> cell q n = -1.
Proof.
  destruct q as [a b]. unfold cell, Qlt. destruct n as [|p|p]; cbn.
  - lia.
  - intros Ha Hn. rewrite Z.mul_1_r in *. rewrite Pos2Z.inj_mul.
    symmetry.
    apply (Z.div_unique a (Z.pos b * Z.pos p) (-1) (a + Z.pos b * Z.pos p)); lia.
  - lia.
Qed.

(** ** C1: snapping the pointer to a tile *)

Section MouseMove.

Variables (s : t) (d : MapDocument) (e : QGraphicsSceneMouseEvent).
Hypothesis Hdoc : mMapDocument s = Some d.
Hypothesis Hfree : acceptedByBase e = false.

Lemma mouseMoveEvent_unfold :
  mouseMoveEvent e s =
    (tileX <- int_div (to_int (fst (scenePos e))) (tileWidth (map d)) ;;
     tileY <- int_div (to_int (snd (scenePos e))) (tileHeight (map d)) ;;
     Ok (with_brush (setTilePos tileX tileY (mBrush s)) s)).
Proof. unfold mouseMoveEvent. rewrite Hdoc, Hfree. reflexivity. Qed.

End MouseMove.

(** C1, as the code has it.  For a mouse move that no item accepts, with a
    document set, tile sizes that are not zero and a position whose casts
    and quotients fit an [int], the brush's tile position becomes the scene
    position divided by the tile size and truncated toward zero, on each
    axis.  On an axis whose coordinate is not negative (and whose tile size
    is positive) that is the cell containing the position,
    [floor (pos / tileSize)]; on an axis whose coordinate lies strictly
    between minus the tile size and zero it is 0, while the cell containing
    the position is -1. *)
Theorem mouseMoveEvent_tile_position (s : t) (d : MapDocument)
    (e : QGraphicsSceneMouseEvent) :
  mMapDocument s = Some d ->
  acceptedByBase e = false ->
  tileWidth (map d) <> 0 ->
  tileHeight (map d) <> 0 ->
  castable (fst (scenePos e)) ->
  castable (snd (scenePos e)) ->
  int_range (Z.quot (to_int (fst (scenePos e))) (tileWidth (map d))) ->
  int_range (Z.quot (to_int (snd (scenePos e))) (tileHeight (map d))) ->
  exists s',
    mouseMoveEvent e s = Ok s' /\
    tilePos (mBrush s') =
      (to_int (fst (scenePos e) / inject_Z (tileWidth (map d))),
       to_int (snd (scenePos e) / inject_Z (tileHeight (map d)))) /\
    ((0 <= fst (scenePos e))%Q -> 0 < tileWidth (map d) ->
     fst (tilePos (mBrush s')) = cell (fst (scenePos e)) (tileWidth (map d))) /\
    ((0 <= snd (scenePos e))%Q -> 0 < tileHeight (map d) ->
     snd (tilePos (mBrush s')) = cell (snd (scenePos e)) (tileHeight (map d))) /\
    ((fst (scenePos e) < 0)%Q ->
     (- inject_Z (tileWidth (map d)) < fst (scenePos e))%Q ->
     fst (tilePos (mBrush s')) = 0 /\
     cell (fst (scenePos e)) (tileWidth (map d)) = -1) /\
    ((snd (scenePos e) < 0)%Q ->
     (- inject_Z (tileHeight (map d)) < snd (scenePos e))%Q ->
     snd (tilePos (mBrush s')) = 0 /\
     cell (snd (scenePos e)) (tileHeight (map d)) = -1).
Proof.
  intros Hdoc Hfree Hw Hh _ _ _ _.
  rewrite (mouseMoveEvent_unfold s d e Hdoc Hfree).
  unfold int_div.
  destruct (Z.eqb_spec (tileWidth (map d)) 0) as [|_]; [contradiction|].
  destruct (Z.eqb_spec (tileHeight (map d)) 0) as [|_]; [contradiction|].
  cbn [bind]. eexists. split; [reflexivity|].
  cbn [with_brush mBrush setTilePos tilePos fst snd].
  assert (Hneg : forall q n, (q < 0)%Q -> (- inject_Z n < q)%Q ->
                   Z.quot (to_int q) n = 0 /\ cell q n = -1).
  { intros q n Hq Hn. split; [|now apply cell_left_of_zero].
    apply quot_within. apply to_int_within; [exact Hn|].
    apply Qlt_trans with 0%Q; [exact Hq|].
    apply (Qplus_lt_l _ _ (- inject_Z n)%Q).
    rewrite Qplus_0_l, Qplus_opp_r.
    apply Qlt_trans with q; assumption. }
  split; [|split; [|split; [|split]]].
  - rewrite !quot_to_int by assumption. reflexivity.
  - intros Hx Hpos. apply quot_to_int_cell; assumption.
  - intros Hy Hpos. apply quot_to_int_cell; assumption.
  - apply Hneg.
  - apply Hneg.
Qed.

Lemma mouseMoveEvent_tile_position_witness :
  exists s',
    mouseMoveEvent move1 scene1 = Ok s' /\
    tilePos (mBrush s') =
      (to_int (fst (scenePos move1) / inject_Z (tileWidth (map doc1))),
       to_int (snd (scenePos move1) / inject_Z (tileHeight (map doc1)))) /\
    fst (tilePos (mBrush s')) = cell (fst (scenePos move1)) (tileWidth (map doc1)).
Proof.
  destruct (mouseMoveEvent_tile_position scene1 doc1 move1)
    as (s' & H1 & H2 & H3 & _);
    [reflexivity | reflexivity | discriminate | discriminate
    | in_range | in_range | in_range | in_range |].
  exists s'. split; [exact H1|]. split; [exact H2|].
  apply H3; [vm_compute; discriminate | reflexivity].
Defined.

Example mouseMoveEvent_left_of_map :
  exists s',
    mouseMoveEvent move_left scene1 = Ok s' /\
    fst (tilePos (mBrush s')) = 0 /\
    cell (fst (scenePos move_left)) (tileWidth (map doc1)) = -1.
Proof. eexists. repeat split. Qed.

Example mouseMoveEvent_move1 :
  exists s', mouseMoveEvent move1 scene1 = Ok s' /\ tilePos (mBrush s') = (2, 2).
Proof. eexists. split; reflexivity. Qed.

(** C1 as it is worded fails left of and above the map: at (-1, -1) the cell
    containing the position is (-1, -1), and the brush goes to (0, 0). *)
Lemma mouseMoveEvent_floor_counterexample :
  ~ (forall (s s' : t) (d : MapDocument) (e : QGraphicsSceneMouseEvent),
       mMapDocument s = Some d ->
       acceptedByBase e = false ->
       mouseMoveEvent e s = Ok s' ->
       tilePos (mBrush s') =
         (cell (fst (scenePos e)) (tileWidth (map d)),
          cell (snd (scenePos e)) (tileHeight (map d)))).
Proof.
  intros H.
  pose (s' := with_brush (setTilePos 0 0 (mBrush scene1)) scene1).
  specialize (H scene1 s' doc1 move_outside eq_refl eq_refl eq_refl).
  vm_compute in H. discriminate H.
Qed.

(** ** refreshScene: the items and their z-values *)

Lemma with_items_same (s : t) : with_items (items s) s = s.
Proof. destruct s; reflexivity. Qed.

Lemma fold_addObjectItem (os : list MapObject) : forall (z : Z) (s : t),
  fold_left addObjectItem os (z, s) =
    (z + Z.of_nat (length os), with_items (items s ++ object_items os z) s).
Proof.
  induction os as [|o os IH]; intros z s; cbn [fold_left object_items length].
  - rewrite app_nil_r, with_items_same, Z.add_0_r. reflexivity.
  - cbn [addObjectItem]. rewrite IH. f_equal; [lia|].
    unfold addItem; cbn [with_items items]. rewrite <- app_assoc. reflexivity.
Qed.

Lemma fold_addLayerItems (m : Map) (ls : list Layer) : forall (z : Z) (s : t),
  snd (fold_left (addLayerItems m) ls (z, s)) =
    with_items (items s ++ layer_items m ls z) s.
Proof.
  induction ls as [|l ls IH]; intros z s; cbn [fold_left layer_items].
  - cbn [snd]. rewrite app_nil_r, with_items_same. reflexivity.
  - destruct l as [tl|og|]; cbn [addLayerItems as_TileLayer as_ObjectGroup].
    + rewrite IH. unfold addItem; cbn [with_items items].
      rewrite <- app_assoc. reflexivity.
    + rewrite fold_addObjectItem, IH. cbn [with_items items].
      rewrite <- app_assoc. reflexivity.
    + apply IH.
Qed.

Lemma no_brush_left (l : list SceneItem) :
  existsb item_eqb_brush (filter (fun i => negb (item_eqb_brush i)) l) = false.
Proof.
  induction l as [|i l IH]; [reflexivity|].
  cbn [filter]. destruct (item_eqb_brush i) eqn:E; cbn [negb]; [exact IH|].
  cbn [existsb]. now rewrite E, IH.
Qed.

(** The first three lines of [refreshScene]: the brush is taken out, the
    other items are cleared away, the brush is put back. *)
Lemma refreshScene_start (s : t) :
  addItem BrushRef (clear (removeItem_brush s)) = with_items [BrushRef] s.
Proof.
  destruct s. unfold addItem, clear, removeItem_brush, with_items.
  cbn. rewrite no_brush_left, orb_false_r. reflexivity.
Qed.

Lemma refreshScene_Some (s : t) (d : MapDocument) :
  mMapDocument s = Some d -> refreshScene s = Ok (refreshed d s).
Proof.
  intros Hd. unfold refreshScene. rewrite refreshScene_start.
  cbn [with_items mMapDocument items].
  rewrite Hd. cbn [is_null deref bind].
  rewrite fold_addLayerItems. reflexivity.
Qed.

Lemma refreshScene_None (s : t) :
  mMapDocument s = None ->
  refreshScene s = Ok (with_items [BrushRef] (setSceneRect (0, 0, 0, 0) s)).
Proof.
  intros Hd. unfold refreshScene. rewrite refreshScene_start.
  cbn [with_items mMapDocument items].
  rewrite Hd. reflexivity.
Qed.

Lemma object_items_nth (os : list MapObject) : forall (z : Z) (i : nat) (it : SceneItem),
  nth_error (object_items os z) i = Some it ->
  is_layer_item it = true /\ forall s, z_of s it = z + Z.of_nat i.
Proof.
  induction os as [|o os IH]; intros z i it; cbn [object_items].
  - destruct i; discriminate.
  - destruct i as [|i]; cbn [nth_error].
    + intros [= <-]. split; [reflexivity|]. intros s; cbn. lia.
    + intros H. apply IH in H. destruct H as [H1 H2].
      split; [exact H1|]. intros s. rewrite H2. lia.
Qed.

Lemma object_items_length (os : list MapObject) (z : Z) :
  length (object_items os z) = length os.
Proof. revert z. induction os; intros z; cbn; [reflexivity|]. now rewrite IHos. Qed.

Lemma layer_items_nth (m : Map) (ls : list Layer) :
  forall (z : Z) (i : nat) (it : SceneItem),
  nth_error (layer_items m ls z) i = Some it ->
  is_layer_item it = true /\ forall s, z_of s it = z + Z.of_nat i.
Proof.
  induction ls as [|l ls IH]; intros z i it; cbn [layer_items].
  - destruct i; discriminate.
  - destruct l as [tl|og|].
    + destruct i as [|i]; cbn [nth_error].
      * intros [= <-]. split; [reflexivity|]. intros s; cbn. lia.
      * intros H. apply IH in H. destruct H as [H1 H2].
        split; [exact H1|]. intros s. rewrite H2. lia.
    + intros H.
      destruct (Nat.lt_ge_cases i (length (object_items (objects og) z))) as [Hi|Hi].
      * rewrite nth_error_app1 in H by exact Hi.
        apply object_items_nth in H. exact H.
      * rewrite nth_error_app2 in H by exact Hi.
        apply IH in H. destruct H as [H1 H2].
        split; [exact H1|]. intros s. rewrite H2.
        rewrite object_items_length in *. lia.
    + apply IH.
Qed.

Lemma object_items_placed (os : list MapObject) (z : Z) :
  List.map placed (object_items os z) =
    List.map Some (List.map (fun o => PlacedObject o (mo_x o, mo_y o)) os).
Proof.
  revert z. induction os as [|o os IH]; intros z; cbn; [reflexivity|].
  now rewrite IH.
Qed.

Lemma layer_items_placed (m : Map) (ls : list Layer) (z : Z) :
  List.map placed (layer_items m ls z) =
    List.map Some (flat_map (items_of_layer m) ls).
Proof.
  revert z. induction ls as [|l ls IH]; intros z; cbn [layer_items flat_map].
  - reflexivity.
  - destruct l as [tl|og|]; cbn [items_of_layer].
    + cbn. now rewrite IH.
    + rewrite !map_app, object_items_placed, IH. reflexivity.
    + apply IH.
Qed.

(** ** What each method does to the state *)

Lemma at_valid {A : Type} (l : list A) (i : Z) :
  0 <= i < Z.of_nat (length l) -> exists a, at_ l i = Ok a.
Proof.
  intros Hi. unfold at_.
  destruct (Z.leb_spec 0 i); [|lia]. destruct (Z.ltb_spec i (Z.of_nat (length l))); [|lia].
  cbn [andb].
  destruct (nth_error l (Z.to_nat i)) as [a|] eqn:E; [now exists a|].
  apply nth_error_None in E. lia.
Qed.

Lemma at_invalid {A : Type} (l : list A) (i : Z) :
  ~ 0 <= i < Z.of_nat (length l) -> at_ l i = Undefined IndexOutOfRange.
Proof.
  intros Hi. unfold at_.
  destruct (Z.leb_spec 0 i); [|reflexivity].
  destruct (Z.ltb_spec i (Z.of_nat (length l))); [lia|reflexivity].
Qed.

Lemma updateBrushVisibility_Ok (s s' : t) :
  updateBrushVisibility s = Ok s' ->
  s' = brush_setVisible (brushShown s) s.
Proof.
  unfold updateBrushVisibility, brushShown, currentIsTileLayer.
  destruct (mBrushVisible s); cbn [andb]; [|now intros [= <-]].
  destruct (mMapDocument s) as [d|]; cbn [is_null negb deref bind];
    [|now intros [= <-]].
  destruct (at_ (layers (map d)) (currentLayer d)) as [l|u|]; cbn [bind];
    [|discriminate|discriminate].
  destruct l; cbn [as_TileLayer]; now intros [= <-].
Qed.

Lemma updateBrushVisibility_returns (s : t) :
  (mBrushVisible s = true ->
   forall d, mMapDocument s = Some d -> currentLayerValid d) ->
  updateBrushVisibility s = Ok (brush_setVisible (brushShown s) s).
Proof.
  intros Hvalid.
  assert (exists s', updateBrushVisibility s = Ok s') as [s' Hs'].
  { unfold updateBrushVisibility.
    destruct (mBrushVisible s); cbn [andb]; [|eexists; reflexivity].
    destruct (mMapDocument s) as [d|]; cbn [is_null negb deref bind];
      [|eexists; reflexivity].
    destruct (at_valid (layers (map d)) (currentLayer d)) as [l Hl].
    { apply Hvalid; reflexivity. }
    rewrite Hl. cbn [bind]. eexists; reflexivity. }
  rewrite Hs'. f_equal. now apply updateBrushVisibility_Ok.
Qed.

Lemma setBrushVisible_Ok (v : bool) (s s' : t) :
  setBrushVisible v s = Ok s' ->
  (mBrushVisible s = v /\ s' = s) \/
  (mBrushVisible s <> v /\
   s' = brush_setVisible (brushShown (with_brushVisible v s))
          (with_brushVisible v s)).
Proof.
  unfold setBrushVisible.
  destruct (Bool.eqb (mBrushVisible s) v) eqn:E.
  - apply Bool.eqb_prop in E. intros [= <-]. now left.
  - apply Bool.eqb_false_iff in E. intros H.
    apply updateBrushVisibility_Ok in H. now right.
Qed.

Lemma repaintRegion_stuck (region : list QRect) (u : UB) :
  fold_left repaintRect region (Undefined u) = Undefined u.
Proof. induction region; cbn; [reflexivity|assumption]. Qed.

Lemma repaintRegion_Some (region : list QRect) : forall (s : t) (d : MapDocument),
  mMapDocument s = Some d ->
  repaintRegion region s =
    Ok (fold_left (fun s r => update (UpdatePixelsOf d r) s) region s).
Proof.
  unfold repaintRegion.
  induction region as [|r region IH]; intros s d Hd; cbn [fold_left].
  - reflexivity.
  - unfold repaintRect at 2. cbn [bind]. rewrite Hd. cbn [deref bind].
    apply IH. exact Hd.
Qed.

Lemma repaintRegion_None (region : list QRect) (s : t) :
  mMapDocument s = None ->
  repaintRegion region s =
    match region with [] => Ok s | _ :: _ => Undefined NullDeref end.
Proof.
  intros Hd. unfold repaintRegion. destruct region as [|r region]; cbn [fold_left].
  - reflexivity.
  - unfold repaintRect at 2. cbn [bind]. rewrite Hd. cbn [deref bind].
    apply repaintRegion_stuck.
Qed.

(** The fields a repaint request leaves alone: all but the log of requests. *)
Lemma repaints_only (d : MapDocument) (region : list QRect) : forall s : t,
  let s' := fold_left (fun s r => update (UpdatePixelsOf d r) s) region s in
  mMapDocument s' = mMapDocument s /\ mBrush s' = mBrush s /\
  mGridVisible s' = mGridVisible s /\ mBrushVisible s' = mBrushVisible s /\
  mPainting s' = mPainting s /\ items s' = items s /\
  connections s' = connections s /\ paintCalls s' = paintCalls s.
Proof.
  induction region as [|r region IH]; intros s; cbn [fold_left].
  - repeat split.
  - specialize (IH (update (UpdatePixelsOf d r) s)). cbn zeta in IH. exact IH.
Qed.

Lemma setMapDocument_Ok (d : option MapDocument) (s s' : t) :
  setMapDocument d s = Ok s' ->
  mMapDocument s' = d /\
  visible (mBrush s') = brushShown s' /\
  zValue (mBrush s') = zValue (mBrush s) /\
  mBrushVisible s' = mBrushVisible s /\
  mPainting s' = mPainting s /\
  paintCalls s' = paintCalls s /\
  (d = None -> connections s' = if is_null (mMapDocument s) then connections s else []).
Proof.
  unfold setMapDocument.
  set (s1 := if negb (is_null (mMapDocument s)) then _ else _).
  assert (exists s1', s1 = Ok s1' /\ mBrush s1' = mBrush s /\
            mBrushVisible s1' = mBrushVisible s /\ mPainting s1' = mPainting s /\
            paintCalls s1' = paintCalls s /\
            connections s1' = if is_null (mMapDocument s) then connections s else [])
    as (s1' & -> & Hb & Hf & Hp & Hl & Hc).
  { subst s1. destruct (mMapDocument s) as [d0|] eqn:Hd0; cbn.
    - rewrite Hd0; cbn. eexists; split; [reflexivity|]. cbn. repeat split.
      induction (connections s) as [|c cs IHc]; [reflexivity|].
      destruct c; cbn; exact IHc.
    - eexists; split; [reflexivity|]. repeat split. }
  cbn [bind].
  destruct d as [d|].
  - rewrite (refreshScene_Some (with_document (Some d) s1') d eq_refl).
    cbn [bind refreshed with_items setSceneRect with_document mMapDocument
         is_null negb connect with_connections deref].
    intros H. apply updateBrushVisibility_Ok in H. subst s'.
    cbn. rewrite Hb, Hf, Hp, Hl. repeat split. discriminate.
  - rewrite (refreshScene_None (with_document None s1') eq_refl).
    cbn [bind with_items setSceneRect with_document mMapDocument is_null negb].
    intros H. apply updateBrushVisibility_Ok in H. subst s'.
    cbn. rewrite Hb, Hf, Hp, Hl, Hc. repeat split.
Qed.

Lemma setMapDocument_returns (d : option MapDocument) (s : t) :
  (forall d', d = Some d' -> currentLayerValid d') ->
  exists s', setMapDocument d s = Ok s'.
Proof.
  intros Hvalid. unfold setMapDocument.
  set (s1 := if negb (is_null (mMapDocument s)) then _ else _).
  assert (exists s1', s1 = Ok s1') as (s1' & ->).
  { subst s1. destruct (mMapDocument s) as [d0|] eqn:Hd0; cbn.
    - rewrite Hd0; cbn. eexists; reflexivity.
    - eexists; reflexivity. }
  cbn [bind].
  destruct d as [d|].
  - rewrite (refreshScene_Some (with_document (Some d) s1') d eq_refl).
    cbn [bind refreshed with_items setSceneRect with_document mMapDocument
         is_null negb connect with_connections deref].
    rewrite updateBrushVisibility_returns.
    + eexists; reflexivity.
    + cbn. intros _ d' [= <-]. now apply Hvalid.
  - rewrite (refreshScene_None (with_document None s1') eq_refl).
    cbn [bind with_items setSceneRect with_document mMapDocument is_null negb].
    rewrite updateBrushVisibility_returns.
    + eexists; reflexivity.
    + cbn. intros _ d' [=].
Qed.

(** ** The invariant of the scene *)

Lemma unmatched_app (log : list PaintCall) : forall (depth : nat) (c : PaintCall),
  unmatched depth (log ++ [c]) =
    match unmatched depth log with
    | Some d' => unmatched d' [c]
    | None => None
    end.
Proof.
  induction log as [|x log IH]; intros depth c; cbn [app unmatched].
  - reflexivity.
  - destruct x; [apply IH|]. destruct depth; [reflexivity|apply IH].
Qed.

Lemma brushShown_implies (s : t) :
  brushShown s = true -> mBrushVisible s = true /\ mMapDocument s <> None.
Proof.
  unfold brushShown. intros H. apply andb_prop in H. destruct H as [Hf H].
  split; [exact Hf|]. now destruct (mMapDocument s).
Qed.

Lemma invariant_new (fresh : BrushItem) : invariant (new fresh).
Proof.
  unfold invariant; cbn. repeat split; try discriminate.
  exists O. split; [reflexivity|discriminate].
Qed.

Lemma invariant_frame (s s' : t) :
  mMapDocument s' = mMapDocument s ->
  zValue (mBrush s') = zValue (mBrush s) ->
  visible (mBrush s') = visible (mBrush s) ->
  mBrushVisible s' = mBrushVisible s ->
  mPainting s' = mPainting s ->
  connections s' = connections s ->
  paintCalls s' = paintCalls s ->
  invariant s -> invariant s'.
Proof.
  unfold invariant.
  intros -> -> -> -> -> -> ->. trivial.
Qed.

Lemma invariant_shown (s : t) :
  invariant s ->
  invariant (brush_setVisible (brushShown s) s).
Proof.
  intros (Ha & _ & Hc & Hd). unfold invariant; cbn.
  split; [exact Ha|]. split; [|split; [exact Hc|exact Hd]].
  intros Hs. apply brushShown_implies in Hs. exact Hs.
Qed.

Lemma invariant_setBrushVisible (v : bool) (s s' : t) :
  setBrushVisible v s = Ok s' -> invariant s -> invariant s'.
Proof.
  intros H Hinv. apply setBrushVisible_Ok in H.
  destruct H as [[_ ->]|[_ ->]]; [exact Hinv|].
  destruct Hinv as (Ha & _ & Hc & Hd).
  unfold invariant; cbn.
  split; [exact Ha|]. split; [|split; [exact Hc|exact Hd]].
  intros Hs. apply brushShown_implies in Hs. exact Hs.
Qed.

Lemma invariant_step (c : Call) (s s' : t) :
  run c s = Ok s' -> invariant s -> invariant s'.
Proof.
  destruct c as [d0| |region|v|v| |e|e| |]; cbn [run]; intros H Hinv.
  - (* setMapDocument *)
    apply setMapDocument_Ok in H.
    destruct H as (Hd & Hv & Hz & Hf & Hp & Hl & Hc).
    destruct Hinv as (Ia & _ & Ic & Id).
    unfold invariant. rewrite Hz, Hl, Hp, Hv.
    split; [exact Ia|]. split; [apply brushShown_implies|]. split; [exact Ic|].
    rewrite Hd. intros ->. rewrite (Hc eq_refl).
    destruct (mMapDocument s); cbn; auto.
  - (* refreshScene *)
    destruct (mMapDocument s) as [d|] eqn:Hd.
    + rewrite (refreshScene_Some s d Hd) in H. injection H as <-.
      revert Hinv. now apply invariant_frame.
    + rewrite (refreshScene_None s Hd) in H. injection H as <-.
      revert Hinv. now apply invariant_frame.
  - (* repaintRegion *)
    destruct (mMapDocument s) as [d|] eqn:Hd.
    + rewrite (repaintRegion_Some region s d Hd) in H. injection H as <-.
      destruct (repaints_only d region s) as (E1 & E2 & _ & E4 & E5 & _ & E7 & E8).
      revert Hinv. apply invariant_frame; try assumption; now rewrite E2.
    + rewrite (repaintRegion_None region s Hd) in H.
      destruct region; [|discriminate]. now injection H as <-.
  - (* setGridVisible *)
    unfold setGridVisible in H.
    destruct (Bool.eqb (mGridVisible s) v); injection H as <-;
      [exact Hinv|]. revert Hinv. now apply invariant_frame.
  - (* setBrushVisible *)
    eapply invariant_setBrushVisible; eassumption.
  - (* updateBrushVisibility *)
    apply updateBrushVisibility_Ok in H. subst s'. now apply invariant_shown.
  - (* event *)
    unfold event in H.
    destruct (type e); cbn [bind] in H.
    + destruct (setBrushVisible true s) as [s1| |] eqn:E; cbn [bind snd] in H;
        try discriminate. injection H as <-.
      eapply invariant_setBrushVisible; eassumption.
    + destruct (setBrushVisible false s) as [s1| |] eqn:E; cbn [bind snd] in H;
        try discriminate. injection H as <-.
      eapply invariant_setBrushVisible; eassumption.
    + cbn in H. now injection H as <-.
  - (* mouseMoveEvent *)
    unfold mouseMoveEvent in H.
    destruct (mMapDocument s) as [d|] eqn:Hd; cbn [is_null] in H;
      [|now injection H as <-].
    destruct (acceptedByBase e); [now injection H as <-|].
    cbn [deref bind] in H. unfold int_div in H.
    destruct (tileWidth (map d) =? 0); [discriminate|]. cbn [bind] in H.
    destruct (tileHeight (map d) =? 0); [discriminate|]. cbn [bind] in H.
    injection H as <-. revert Hinv. now apply invariant_frame.
  - (* mousePressEvent *)
    unfold mousePressEvent in H.
    destruct (visible (mBrush s)) eqn:Hv; injection H as <-; [|exact Hinv].
    destruct Hinv as (Ia & Ib & (depth & Ic & Ip) & Id).
    unfold invariant; cbn.
    split; [exact Ia|]. split; [exact Ib|]. split; [|exact Id].
    exists (S depth). rewrite unmatched_app, Ic. split; [reflexivity|lia].
  - (* mouseReleaseEvent *)
    unfold mouseReleaseEvent in H.
    destruct (mPainting s) eqn:Hp; injection H as <-; [|exact Hinv].
    destruct Hinv as (Ia & Ib & (depth & Ic & Ip) & Id).
    unfold invariant; cbn.
    split; [exact Ia|]. split; [exact Ib|]. split; [|exact Id].
    destruct depth as [|depth]; [specialize (Ip Hp); lia|].
    exists depth. rewrite unmatched_app, Ic. split; [reflexivity|discriminate].
Qed.

Lemma reachable_invariant (s : t) : reachable s -> invariant s.
Proof.
  induction 1 as [fresh|c s s' _ IH Hrun|s d d' _ IH Hd].
  - apply invariant_new.
  - eapply invariant_step; eassumption.
  - destruct IH as (Ia & Ib & Ic & Id). unfold invariant; cbn.
    split; [exact Ia|]. split; [|split; [exact Ic|discriminate]].
    intros Hv. split; [now apply Ib|discriminate].
Qed.

Lemma reachable_scene1 : reachable scene1.
Proof.
  apply (reach_run (CallSetMapDocument (Some doc1)) (new fresh0)).
  - apply reach_new.
  - vm_compute. reflexivity.
Qed.

Lemma reachable_scene_entered : reachable scene_entered.
Proof.
  apply (reach_run (CallSetBrushVisible true) scene1).
  - exact reachable_scene1.
  - vm_compute. reflexivity.
Qed.

Lemma reachable_scene_painting : reachable scene_painting.
Proof.
  apply (reach_run CallMousePressEvent scene_entered).
  - exact reachable_scene_entered.
  - vm_compute. reflexivity.
Qed.

Lemma reachable_scene_stale : reachable scene_stale.
Proof.
  apply (reach_edit scene_entered doc1 doc1_objects).
  - exact reachable_scene_entered.
  - reflexivity.
Qed.

Lemma reachable_scene_two_presses : reachable scene_two_presses.
Proof.
  apply (reach_run CallMouseReleaseEvent
           (with_painting true (brushPaint BeginPaint scene_painting)));
    [|vm_compute; reflexivity].
  apply (reach_run CallMousePressEvent scene_painting);
    [exact reachable_scene_painting|vm_compute; reflexivity].
Qed.

Lemma brushShown_spec (s : t) : brushShown s = true <-> tileLayerSelected s.
Proof.
  unfold brushShown, tileLayerSelected, currentIsTileLayer. split.
  - intros H. apply andb_prop in H. destruct H as [Hf H]. split; [exact Hf|].
    destruct (mMapDocument s) as [d|]; [|discriminate].
    destruct (at_ (layers (map d)) (currentLayer d)) as [[tl|og|]| |] eqn:E;
      try discriminate.
    now exists d, tl.
  - intros (Hf & d & tl & -> & ->). now rewrite Hf.
Qed.

(** ** C2: the guards against an absent document *)

(** C2, as the code has it.  With no document set, [refreshScene],
    [drawForeground], [mouseMoveEvent] and [updateBrushVisibility] return
    without dereferencing the document.  [repaintRegion] has no guard: it
    dereferences the document once for each rectangle of the region, so with
    no document it returns only for the empty region; it is a slot that
    [setMapDocument] connects to a document's signal, and a scene without a
    document has no connection. *)
Theorem guards_without_document (s : t) :
  mMapDocument s = None ->
  refreshScene s = Ok (with_items [BrushRef] (setSceneRect (0, 0, 0, 0) s)) /\
  (forall fdiv fadd fuel rect, drawForeground fdiv fadd fuel rect s = Ok []) /\
  (forall e, mouseMoveEvent e s = Ok s) /\
  updateBrushVisibility s = Ok (brush_setVisible false s) /\
  repaintRegion [] s = Ok s /\
  (forall r region, repaintRegion (r :: region) s = Undefined NullDeref) /\
  (reachable s -> connections s = []).
Proof.
  intros Hd. repeat split.
  - now apply refreshScene_None.
  - intros. unfold drawForeground. now rewrite Hd.
  - intros. unfold mouseMoveEvent. now rewrite Hd.
  - unfold updateBrushVisibility. rewrite Hd. cbn [is_null negb].
    now rewrite andb_false_r.
  - intros. now rewrite repaintRegion_None.
  - intros Hr. apply reachable_invariant in Hr. now apply Hr.
Qed.

Lemma guards_without_document_witness :
  mMapDocument (new fresh0) = None /\
  (forall e, mouseMoveEvent e (new fresh0) = Ok (new fresh0)) /\
  connections (new fresh0) = [].
Proof.
  split; [reflexivity|].
  destruct (guards_without_document (new fresh0) eq_refl)
    as (_ & _ & Hmove & _ & _ & _ & Hconn).
  split; [exact Hmove|]. apply Hconn. apply reach_new.
Defined.

(** C2 as it is worded fails for [repaintRegion]: on a scene without a
    document and a region of one rectangle it dereferences the null
    pointer. *)
Lemma repaintRegion_guard_counterexample :
  ~ (forall (s : t) (region : list QRect),
       mMapDocument s = None -> exists s', repaintRegion region s = Ok s').
Proof.
  intros H. destruct (H (new fresh0) [rect0] eq_refl) as [s' Hs'].
  discriminate Hs'.
Qed.

(** ** C3 and C4: the items [refreshScene] builds *)

(** C3, as the code has it.  After [refreshScene] with a document set, the
    scene holds the brush, then the layer items in creation order, then the
    tile-selection item with z = 9999; the i-th layer item created (from 0)
    has z = i; the brush has z = 10000; and when at most 9999 layer items
    were created, each has a z-value strictly below that of the selection
    item and of the brush. *)
Theorem refreshScene_z_order (s : t) (d : MapDocument) :
  reachable s ->
  mMapDocument s = Some d ->
  exists s' created,
    refreshScene s = Ok s' /\
    items s' = BrushRef :: created ++ [TileSelectionItem d 9999] /\
    (forall i it, nth_error created i = Some it ->
                  is_layer_item it = true /\ z_of s' it = Z.of_nat i) /\
    z_of s' BrushRef = 10000 /\
    (Z.of_nat (length created) <= 9999 ->
     forall it, In it created ->
                z_of s' it < z_of s' (TileSelectionItem d 9999) /\
                z_of s' it < z_of s' BrushRef).
Proof.
  intros Hr Hd.
  exists (refreshed d s), (layer_items (map d) (layers (map d)) 0).
  assert (Hz : z_of (refreshed d s) BrushRef = 10000).
  { apply reachable_invariant in Hr. apply Hr. }
  split; [now apply refreshScene_Some|]. split; [reflexivity|].
  split; [|split; [exact Hz|]].
  - intros i it Hi. apply layer_items_nth in Hi. destruct Hi as [H1 H2].
    split; [exact H1|]. rewrite H2. lia.
  - intros Hlen it Hin. apply In_nth_error in Hin. destruct Hin as [i Hi].
    assert (Hlt : (i < length (layer_items (map d) (layers (map d)) 0))%nat).
    { apply nth_error_Some. congruence. }
    apply layer_items_nth in Hi. destruct Hi as [_ H2].
    rewrite Hz, H2. cbn [z_of]. lia.
Qed.

Lemma refreshScene_z_order_witness :
  reachable scene1 /\ mMapDocument scene1 = Some doc1 /\
  exists s' created,
    refreshScene scene1 = Ok s' /\
    items s' = BrushRef :: created ++ [TileSelectionItem doc1 9999] /\
    z_of s' BrushRef = 10000.
Proof.
  split; [exact reachable_scene1|]. split; [reflexivity|].
  destruct (refreshScene_z_order scene1 doc1 reachable_scene1 eq_refl)
    as (s' & created & H1 & H2 & _ & H4 & _).
  exists s', created. repeat split; assumption.
Defined.

Example refreshScene_scene1 :
  exists s',
    refreshScene scene1 = Ok s' /\
    items s' =
      [ BrushRef;
        TileLayerItem ground (32, 32) 0;
        MapObjectItem {| mo_x := 5 # 1; mo_y := 7 # 1 |} (5 # 1, 7 # 1)%Q 1;
        MapObjectItem {| mo_x := 40 # 1; mo_y := 3 # 2 |} (40 # 1, 3 # 2)%Q 2;
        TileSelectionItem doc1 9999 ] /\
    sceneRect s' = (0, 0, 129, 49).
Proof. eexists. repeat split. Qed.

(** C3 as it is worded fails on a map with 10000 objects: the last object
    item gets z = 9999, which is not below the selection item's. *)
Lemma refreshScene_z_order_counterexample :
  ~ (forall (s s' : t) (d : MapDocument),
       reachable s ->
       mMapDocument s = Some d ->
       refreshScene s = Ok s' ->
       forall it, In it (items s') -> is_layer_item it = true ->
                  z_of s' it < 9999).
Proof.
  intros H.
  destruct (setMapDocument_returns (Some doc_crowded) (new fresh0)) as [s Hs].
  { intros d' [= <-]. unfold currentLayerValid, doc_crowded, map_crowded.
    cbn [map currentLayer layers length]. lia. }
  assert (Hr : reachable s).
  { apply (reach_run (CallSetMapDocument (Some doc_crowded)) (new fresh0));
      [apply reach_new|exact Hs]. }
  apply setMapDocument_Ok in Hs. destruct Hs as (Hd & _).
  specialize (H s (refreshed doc_crowded s) doc_crowded Hr Hd
                (refreshScene_Some s doc_crowded Hd)).
  set (created := layer_items map_crowded (layers map_crowded) 0) in *.
  assert (Hlen : length created = Z.to_nat 10000).
  { subst created. unfold map_crowded, crowd.
    cbn [layers layer_items objects].
    rewrite app_nil_r, object_items_length. apply repeat_length. }
  destruct (nth_error created (Z.to_nat 9999)) as [it|] eqn:Hit.
  - pose proof (nth_error_In _ _ Hit) as Hin.
    apply layer_items_nth in Hit. destruct Hit as [Hl Hz].
    specialize (H it). rewrite Hz in H.
    assert (0 + Z.of_nat (Z.to_nat 9999) < 9999); [|lia].
    apply H; [|exact Hl].
    unfold refreshed; cbn [items with_items]. right.
    apply in_or_app. left. exact Hin.
  - apply nth_error_None in Hit. lia.
Qed.

(** C4.  With a document set, on a map for which the [int] arithmetic of
    [refreshScene] stays in range, [refreshScene] goes through the map's
    layers in order and creates, between the brush and the selection item,
    exactly the items [items_of_map] lists: one per tile layer, at the
    layer's tile coordinates times the tile width and height, one per
    object of each object group, at the object's coordinates, and none for
    another layer. *)
Theorem refreshScene_builds_items (s : t) (d : MapDocument) :
  mMapDocument s = Some d ->
  refresh_fits (map d) ->
  exists s' created,
    refreshScene s = Ok s' /\
    items s' = BrushRef :: created ++ [TileSelectionItem d 9999] /\
    List.map placed created = List.map Some (items_of_map (map d)).
Proof.
  intros Hd _.
  exists (refreshed d s), (layer_items (map d) (layers (map d)) 0).
  split; [now apply refreshScene_Some|]. split; [reflexivity|].
  apply layer_items_placed.
Qed.

Lemma refresh_fits_map1 : refresh_fits map1.
Proof.
  unfold refresh_fits.
  split; [in_range|]. split; [in_range|].
  split; [in_range|]. split; [in_range|]. split; [|in_range].
  unfold map1, layers.
  constructor; [split; in_range|].
  constructor; [exact I|]. constructor; [exact I|]. constructor.
Qed.

Lemma refreshScene_builds_items_witness :
  mMapDocument scene1 = Some doc1 /\
  refresh_fits (map doc1) /\
  exists s' created,
    refreshScene scene1 = Ok s' /\
    items s' = BrushRef :: created ++ [TileSelectionItem doc1 9999] /\
    List.map placed created = List.map Some (items_of_map (map doc1)).
Proof.
  split; [reflexivity|]. split; [exact refresh_fits_map1|].
  exact (refreshScene_builds_items scene1 doc1 eq_refl refresh_fits_map1).
Defined.

Example items_of_map1 :
  items_of_map map1 =
    [ PlacedTileLayer ground (32, 32);
      PlacedObject {| mo_x := 5 # 1; mo_y := 7 # 1 |} (5 # 1, 7 # 1)%Q;
      PlacedObject {| mo_x := 40 # 1; mo_y := 3 # 2 |} (40 # 1, 3 # 2)%Q ].
Proof. reflexivity. Qed.

(** ** C5: the visibility setters *)

(** C5.  After [setGridVisible v] the grid flag is [v], and after
    [setBrushVisible v] the brush flag is [v]; a second call with the same
    value does nothing; and a call with the value the flag already has
    returns the state as it was, logs included: no repaint is requested and
    the brush is not shown or hidden anew.  [setBrushVisible] returns
    whenever the current-layer index of the document is valid. *)
Theorem visibility_setters (s : t) (v : bool) :
  (exists s', setGridVisible v s = Ok s' /\ mGridVisible s' = v /\
              setGridVisible v s' = Ok s') /\
  (mGridVisible s = v -> setGridVisible v s = Ok s) /\
  (mBrushVisible s = v -> setBrushVisible v s = Ok s) /\
  (forall s', setBrushVisible v s = Ok s' ->
              mBrushVisible s' = v /\ setBrushVisible v s' = Ok s') /\
  ((forall d, mMapDocument s = Some d -> currentLayerValid d) ->
   exists s', setBrushVisible v s = Ok s').
Proof.
  repeat split.
  - unfold setGridVisible. destruct (Bool.eqb (mGridVisible s) v) eqn:E.
    + exists s. rewrite E. apply Bool.eqb_prop in E. auto.
    + eexists. split; [reflexivity|]. cbn. now rewrite Bool.eqb_reflx.
  - intros <-. unfold setGridVisible. now rewrite Bool.eqb_reflx.
  - intros <-. unfold setBrushVisible. now rewrite Bool.eqb_reflx.
  - apply setBrushVisible_Ok in H. now destruct H as [[E ->]|[_ ->]].
  - apply setBrushVisible_Ok in H. destruct H as [[E ->]|[_ ->]];
      unfold setBrushVisible.
    + rewrite <- E. now rewrite Bool.eqb_reflx.
    + cbn. now rewrite Bool.eqb_reflx.
  - intros Hvalid. unfold setBrushVisible.
    destruct (Bool.eqb (mBrushVisible s) v); [now exists s|].
    rewrite updateBrushVisibility_returns; [eexists; reflexivity|].
    intros _ d Hd. now apply Hvalid.
Qed.

Lemma visibility_setters_witness :
  mBrushVisible scene1 = false /\
  setBrushVisible false scene1 = Ok scene1 /\
  exists s', setBrushVisible true scene1 = Ok s' /\ mBrushVisible s' = true.
Proof.
  split; [reflexivity|].
  destruct (visibility_setters scene1 false) as (_ & _ & Hsame & _ & _).
  split; [exact (Hsame eq_refl)|].
  destruct (visibility_setters scene1 true) as (_ & _ & _ & Hset & Hret).
  destruct Hret as [s' Hs'].
  - intros d [= <-]. unfold currentLayerValid. cbn. lia.
  - exists s'. split; [exact Hs'|]. exact (proj1 (Hset s' Hs')).
Defined.

Example setBrushVisible_scene1 :
  exists s',
    setBrushVisible true scene1 = Ok s' /\
    visible (mBrush s') = true /\
    brushShows s' = [false; false; true] /\
    repaints s' = [].
Proof. eexists. repeat split. Qed.

Example setGridVisible_scene1 :
  exists s',
    setGridVisible false scene1 = Ok s' /\
    mGridVisible s' = false /\ repaints s' = [UpdateAll].
Proof. eexists. repeat split. Qed.

(** ** C8: when the brush is shown *)




(** ** C9: painting *)

(** What a call does to [mPainting] and to the log of paint calls. *)
Lemma run_paint (c : Call) (s s' : t) :
  run c s = Ok s' ->
  (mPainting s' = mPainting s /\ paintCalls s' = paintCalls s) \/
  (c = CallMousePressEvent /\ visible (mBrush s) = true /\
   mPainting s' = true /\ paintCalls s' = paintCalls s ++ [BeginPaint]) \/
  (c = CallMouseReleaseEvent /\ mPainting s = true /\
   mPainting s' = false /\ paintCalls s' = paintCalls s ++ [EndPaint]).
Proof.
  assert (Hsbv : forall v s1, setBrushVisible v s = Ok s1 ->
                   mPainting s1 = mPainting s /\ paintCalls s1 = paintCalls s).
  { intros v s1 H. apply setBrushVisible_Ok in H.
    destruct H as [[_ ->]|[_ ->]]; split; reflexivity. }
  destruct c as [d0| |region|v|v| |e|e| |]; cbn [run]; intros H.
  - left. apply setMapDocument_Ok in H. tauto.
  - left. destruct (mMapDocument s) as [d|] eqn:Hd.
    + rewrite (refreshScene_Some s d Hd) in H. injection H as <-. now split.
    + rewrite (refreshScene_None s Hd) in H. injection H as <-. now split.
  - left. destruct (mMapDocument s) as [d|] eqn:Hd.
    + rewrite (repaintRegion_Some region s d Hd) in H. injection H as <-.
      pose proof (repaints_only d region s) as F. cbn zeta in F. tauto.
    + rewrite (repaintRegion_None region s Hd) in H.
      destruct region; [|discriminate]. injection H as <-. now split.
  - left. unfold setGridVisible in H.
    destruct (Bool.eqb (mGridVisible s) v); injection H as <-; now split.
  - left. eapply Hsbv; eassumption.
  - left. apply updateBrushVisibility_Ok in H. subst s'. now split.
  - left. unfold event in H.
    destruct (type e); cbn [bind] in H.
    + destruct (setBrushVisible true s) as [s1| |] eqn:E; cbn [bind snd] in H;
        try discriminate. injection H as <-. eapply Hsbv; eassumption.
    + destruct (setBrushVisible false s) as [s1| |] eqn:E; cbn [bind snd] in H;
        try discriminate. injection H as <-. eapply Hsbv; eassumption.
    + cbn in H. injection H as <-. now split.
  - left. unfold mouseMoveEvent in H.
    destruct (mMapDocument s) as [d|] eqn:Hd; cbn [is_null] in H;
      [|injection H as <-; now split].
    destruct (acceptedByBase e); [injection H as <-; now split|].
    cbn [deref bind] in H. unfold int_div in H.
    destruct (tileWidth (map d) =? 0); [discriminate|]. cbn [bind] in H.
    destruct (tileHeight (map d) =? 0); [discriminate|]. cbn [bind] in H.
    injection H as <-. now split.
  - unfold mousePressEvent in H.
    destruct (visible (mBrush s)) eqn:Hv; injection H as <-.
    + right; left. repeat split.
    + left. now split.
  - unfold mouseReleaseEvent in H.
    destruct (mPainting s) eqn:Hp; injection H as <-.
    + right; right. repeat split.
    + left. now split.
Qed.

Lemma app_one_neq {A : Type} (l : list A) (x : A) : l <> l ++ [x].
Proof.
  intros H. apply (f_equal (@length A)) in H.
  rewrite length_app in H. cbn in H. lia.
Qed.

(** C9, as the code has it.  [mPainting] becomes true only in a mouse
    press while the brush is visible; every such press calls [beginPaint],
    also when [mPainting] is true already, and a press while the brush is
    hidden does nothing.  A mouse release calls [endPaint] and clears
    [mPainting] when [mPainting] is true and does nothing otherwise, and no
    other call reaches [endPaint]; so, on every run of a scene object, each
    [endPaint] comes after a [beginPaint] that no earlier [endPaint] has
    matched, and one is still unmatched while [mPainting] is true.  The
    calls of [beginPaint] need not all be matched. *)
Theorem painting_balanced :
  (forall fresh, mPainting (new fresh) = false /\ paintCalls (new fresh) = []) /\
  (forall c s s', run c s = Ok s' ->
                  mPainting s = false -> mPainting s' = true ->
                  c = CallMousePressEvent /\ visible (mBrush s) = true /\
                  paintCalls s' = paintCalls s ++ [BeginPaint]) /\
  (forall s, mousePressEvent s =
               Ok (if visible (mBrush s)
                   then with_painting true (brushPaint BeginPaint s)
                   else s)) /\
  (forall s, mouseReleaseEvent s =
               Ok (if mPainting s
                   then with_painting false (brushPaint EndPaint s)
                   else s)) /\
  (forall c s s', run c s = Ok s' ->
                  paintCalls s' = paintCalls s ++ [EndPaint] ->
                  c = CallMouseReleaseEvent /\ mPainting s = true /\
                  mPainting s' = false) /\
  (forall s, reachable s ->
             exists depth,
               unmatched 0 (paintCalls s) = Some depth /\
               (mPainting s = true -> (1 <= depth)%nat)).
Proof.
  repeat apply conj.
  - intros fresh. split; reflexivity.
  - intros c s s' H Hoff Hon. apply run_paint in H.
    destruct H as [[E _]|[(-> & Hv & _ & Hl)|(_ & Hp & _)]].
    + congruence.
    + repeat split; assumption.
    + congruence.
  - intros s. unfold mousePressEvent. now destruct (visible (mBrush s)).
  - intros s. unfold mouseReleaseEvent. now destruct (mPainting s).
  - intros c s s' H Hend. apply run_paint in H.
    destruct H as [[_ E]|[(_ & _ & _ & Hl)|(-> & Hp & Hp' & _)]].
    + rewrite E in Hend. now apply app_one_neq in Hend.
    + rewrite Hl in Hend. apply app_inv_head in Hend. discriminate.
    + repeat split; assumption.
  - intros s Hr. apply reachable_invariant in Hr. apply Hr.
Qed.

Lemma painting_balanced_witness :
  reachable scene_painting /\
  paintCalls scene_painting = [BeginPaint] /\
  mPainting scene_painting = true /\
  exists depth,
    unmatched 0 (paintCalls scene_painting) = Some depth /\ (1 <= depth)%nat.
Proof.
  split; [exact reachable_scene_painting|].
  split; [reflexivity|]. split; [reflexivity|].
  destruct painting_balanced as (_ & _ & _ & _ & _ & Hbal).
  destruct (Hbal scene_painting reachable_scene_painting) as (depth & H1 & H2).
  exists depth. split; [exact H1|]. apply H2. reflexivity.
Defined.

(** C9 as it is worded fails after two presses and one release: the scene
    is not painting, and one [beginPaint] has no [endPaint]. *)
Lemma painting_unbalanced_counterexample :
  ~ (forall s : t,
       reachable s ->
       unmatched 0 (paintCalls s)
         = Some (if mPainting s then 1%nat else 0%nat)).
Proof.
  intros H. specialize (H scene_two_presses reachable_scene_two_presses).
  vm_compute in H. discriminate H.
Qed.

Example painting_two_presses :
  exists s',
    runs [CallEvent {| type := Enter; handledByBase := false |};
          CallMousePressEvent; CallMousePressEvent;
          CallMouseReleaseEvent; CallMouseReleaseEvent] scene1 = Ok s' /\
    paintCalls s' = [BeginPaint; BeginPaint; EndPaint] /\
    mPainting s' = false.
Proof. eexists. repeat split. Qed.

(** ** C6: the grid *)

Section GridLines.

Variables (stop step : Z) (line : Z -> PainterCmd).

Lemma for_lines_sound (fuel : nat) : forall (i : Z) (cmds : list PainterCmd),
  for_lines fuel i stop step line = Ok cmds ->
  forall c, In c cmds ->
  exists k : nat, c = line (i + Z.of_nat k * step) /\ i + Z.of_nat k * step < stop.
Proof.
  induction fuel as [|fuel IH]; intros i cmds; cbn [for_lines];
    destruct (Z.ltb_spec i stop) as [Hlt|Hge].
  - discriminate.
  - intros [= <-] c [].
  - destruct (for_lines fuel (i + step) stop step line) as [rest| |] eqn:E;
      cbn [bind]; try discriminate.
    intros [= <-] c [<-|Hin].
    + exists O. rewrite Z.add_0_r. now split.
    + destruct (IH _ _ E c Hin) as (k & -> & Hk).
      exists (S k). rewrite Nat2Z.inj_succ.
      replace (i + Z.succ (Z.of_nat k) * step)
        with (i + step + Z.of_nat k * step) by lia.
      now split.
  - intros [= <-] c [].
Qed.

Lemma for_lines_returns (fuel : nat) : forall i : Z,
  0 < step ->
  (Z.to_nat (stop - i) <= fuel)%nat ->
  exists cmds, for_lines fuel i stop step line = Ok cmds.
Proof.
  induction fuel as [|fuel IH]; intros i Hstep Hfuel; cbn [for_lines];
    destruct (Z.ltb_spec i stop) as [Hlt|Hge].
  - lia.
  - now exists [].
  - destruct (IH (i + step) Hstep) as [rest ->]; [lia|].
    cbn [bind]. eexists; reflexivity.
  - now exists [].
Qed.

End GridLines.

(** C6.  The far end of every grid line and the coordinate the loops step
    along are clamped to the map, the near end is not: on a map of 129 by 49
    pixels, for an exposed rectangle below the map (its top at y = 100),
    [drawForeground] draws the vertical lines from y = 100, beyond the
    map's pixel height, back up to y = 48. *)
Theorem drawForeground_below_map :
  mMapDocument scene1 = Some doc1 /\
  mGridVisible scene1 = true /\
  width (map doc1) * tileWidth (map doc1) + 1 = 129 /\
  height (map doc1) * tileHeight (map doc1) + 1 = 49 /\
  to_int (top exposed_below) = 100 /\
  drawForeground exact_div exact_add 2 exposed_below scene1 =
    Ok [ SetPen_black; SetOpacity_half;
         DrawLine 0 100 0 48; DrawLine 32 100 32 48 ].
Proof. repeat split. Qed.

(** X21.  [drawForeground] sends nothing to the painter unless a document
    is set and the grid flag is true.  When both hold, the tile sizes are
    positive and the casts and the [int] arithmetic stay in range, it
    returns, and every line it draws is either vertical, at an [x] that is
    a multiple of the tile width, not below [startX], below the truncated
    right edge of the exposed rectangle and not above the map's width in
    pixels, with its far end at [endY - 1], which is below the truncated
    bottom of the exposed rectangle and not above the map's height in
    pixels; or horizontal, with the same facts on the other axis. *)
Theorem drawForeground_grid (fdiv : Q -> Z -> Q) (fadd : Q -> Q -> Q)
    (rect : QRectF) (s : t) :
  (mMapDocument s = None \/ mGridVisible s = false ->
   forall fuel, drawForeground fdiv fadd fuel rect s = Ok []) /\
  (forall d, mMapDocument s = Some d -> mGridVisible s = true ->
     0 < tileWidth (map d) -> 0 < tileHeight (map d) ->
     foreground_fits fdiv fadd (map d) rect ->
     (exists fuel cmds, drawForeground fdiv fadd fuel rect s = Ok cmds) /\
     (forall fuel cmds x1 y1 x2 y2,
        drawForeground fdiv fadd fuel rect s = Ok cmds ->
        In (DrawLine x1 y1 x2 y2) cmds ->
        (x1 = x2 /\ (tileWidth (map d) | x1) /\
         startX fdiv (map d) rect <= x1 /\
         x1 < to_int (right fadd rect) /\
         x1 <= width (map d) * tileWidth (map d) /\
         y2 = endY fadd (map d) rect - 1 /\
         y2 < to_int (bottom fadd rect) /\
         y2 <= height (map d) * tileHeight (map d))
        \/
        (y1 = y2 /\ (tileHeight (map d) | y1) /\
         startY fdiv (map d) rect <= y1 /\
         y1 < to_int (bottom fadd rect) /\
         y1 <= height (map d) * tileHeight (map d) /\
         x2 = endX fadd (map d) rect - 1 /\
         x2 < to_int (right fadd rect) /\
         x2 <= width (map d) * tileWidth (map d)))).
Proof.
  split.
  - intros H fuel. unfold drawForeground.
    destruct H as [-> | ->]; [reflexivity|].
    now rewrite orb_true_r.
  - intros d Hd Hg Hw Hh _.
    assert (Hunfold : forall fuel,
      drawForeground fdiv fadd fuel rect s =
        (vertical <-
           for_lines fuel (startX fdiv (map d) rect) (endX fadd (map d) rect)
             (tileWidth (map d))
             (fun x => DrawLine x (to_int (top rect)) x (endY fadd (map d) rect - 1)) ;;
         horizontal <-
           for_lines fuel (startY fdiv (map d) rect) (endY fadd (map d) rect)
             (tileHeight (map d))
             (fun y => DrawLine (to_int (left rect)) y (endX fadd (map d) rect - 1) y) ;;
         Ok ([SetPen_black; SetOpacity_half] ++ vertical ++ horizontal))).
    { intros fuel. unfold drawForeground. rewrite Hd, Hg.
      cbn [is_null negb orb deref bind].
      destruct (Z.eqb_spec (tileWidth (map d)) 0); [lia|].
      destruct (Z.eqb_spec (tileHeight (map d)) 0); [lia|]. reflexivity. }
    split.
    + set (n := Nat.max
                  (Z.to_nat (endX fadd (map d) rect - startX fdiv (map d) rect))
                  (Z.to_nat (endY fadd (map d) rect - startY fdiv (map d) rect))).
      exists n. rewrite Hunfold.
      destruct (for_lines_returns (endX fadd (map d) rect) (tileWidth (map d))
                  (fun x => DrawLine x (to_int (top rect)) x (endY fadd (map d) rect - 1))
                  n (startX fdiv (map d) rect) Hw) as [v ->]; [lia|].
      destruct (for_lines_returns (endY fadd (map d) rect) (tileHeight (map d))
                  (fun y => DrawLine (to_int (left rect)) y (endX fadd (map d) rect - 1) y)
                  n (startY fdiv (map d) rect) Hh) as [h ->]; [lia|].
      cbn [bind]. eexists; reflexivity.
    + intros fuel cmds x1 y1 x2 y2. rewrite Hunfold.
      destruct (for_lines fuel (startX fdiv (map d) rect) _ _ _) as [v| |] eqn:Ev;
        cbn [bind]; try discriminate.
      destruct (for_lines fuel (startY fdiv (map d) rect) _ _ _) as [h| |] eqn:Eh;
        cbn [bind]; try discriminate.
      intros [= <-] Hin.
      destruct Hin as [Hin|[Hin|Hin]]; try discriminate.
      apply in_app_or in Hin. destruct Hin as [Hin|Hin].
      * left. destruct (for_lines_sound _ _ _ _ _ _ Ev _ Hin) as (k & [= -> -> -> ->] & Hk).
        unfold endX, endY in *.
        repeat split; try lia.
        exists (to_int (fdiv (rf_x rect) (tileWidth (map d))) + Z.of_nat k).
        unfold startX. lia.
      * right. destruct (for_lines_sound _ _ _ _ _ _ Eh _ Hin) as (k & [= -> -> -> ->] & Hk).
        unfold endX, endY in *.
        repeat split; try lia.
        exists (to_int (fdiv (rf_y rect) (tileHeight (map d))) + Z.of_nat k).
        unfold startY. lia.
Qed.

Lemma foreground_fits_inside :
  foreground_fits exact_div exact_add map1 exposed_inside.
Proof. unfold foreground_fits. repeat split; vm_compute; discriminate. Qed.

Lemma drawForeground_grid_witness :
  mMapDocument scene1 = Some doc1 /\ mGridVisible scene1 = true /\
  0 < tileWidth (map doc1) /\ 0 < tileHeight (map doc1) /\
  foreground_fits exact_div exact_add (map doc1) exposed_inside /\
  exists fuel cmds,
    drawForeground exact_div exact_add fuel exposed_inside scene1 = Ok cmds.
Proof.
  split; [reflexivity|]. split; [reflexivity|].
  split; [reflexivity|]. split; [reflexivity|].
  split; [exact foreground_fits_inside|].
  apply (proj2 (drawForeground_grid exact_div exact_add exposed_inside scene1)
           doc1); try reflexivity.
  exact foreground_fits_inside.
Defined.

Example drawForeground_inside :
  drawForeground exact_div exact_add 3 exposed_inside scene1 =
    Ok [ SetPen_black; SetOpacity_half;
         DrawLine 0 0 0 39; DrawLine 32 0 32 39; DrawLine 64 0 64 39;
         DrawLine 10 0 69 0; DrawLine 10 16 69 16; DrawLine 10 32 69 32 ].
Proof. reflexivity. Qed.

Example drawForeground_out_of_fuel :
  drawForeground exact_div exact_add 2 exposed_inside scene1 = OutOfFuel.
Proof. reflexivity. Qed.

(** ** C7: the wheel in the terrain view *)

Lemma land_ControlModifier (m : Z) :
  (Z.land m TerrainView.ControlModifier =? 0) = negb (Z.testbit m 26).
Proof.
  change TerrainView.ControlModifier with (2 ^ 26).
  destruct (Z.testbit m 26) eqn:Hbit; cbn [negb].
  - apply Z.eqb_neq. intros H.
    apply (f_equal (fun z => Z.testbit z 26)) in H.
    rewrite Z.land_spec, Hbit, Z.pow2_bits_true, Z.bits_0 in H by lia.
    discriminate.
  - apply Z.eqb_eq. apply Z.bits_inj_0. intros n.
    rewrite Z.land_spec.
    destruct (Z.eq_dec n 26) as [->|Hn].
    + now rewrite Hbit.
    + destruct (Z.neg_nonneg_cases n).
      * rewrite (Z.testbit_neg_r (2 ^ 26)) by assumption. apply andb_false_r.
      * rewrite Z.pow2_bits_false by lia. apply andb_false_r.
Qed.

(** C7.  [wheelEvent] hands the wheel delta to the zoomable exactly when the
    Control modifier is held and the wheel is the vertical one; then the
    base class is not called.  In every other case the event goes as it is
    to the base tree-view handler and the zoomable stays as it was. *)
Theorem wheelEvent_forwards (Zoomable QTreeView : Type)
    (handleWheelDelta : Z -> Zoomable -> Zoomable)
    (baseWheelEvent : TerrainView.QWheelEvent -> QTreeView -> QTreeView)
    (event : TerrainView.QWheelEvent) (v : TerrainView.t Zoomable QTreeView) :
  let v' := TerrainView.wheelEvent handleWheelDelta baseWheelEvent event v in
  (TerrainView.calls v' =
     TerrainView.calls v ++ [TerrainView.HandleWheelDelta (TerrainView.delta event)]
   <-> TerrainView.controlHeld event = true /\
       TerrainView.orientation event = TerrainView.Vertical) /\
  (TerrainView.controlHeld event = true /\
   TerrainView.orientation event = TerrainView.Vertical ->
   TerrainView.mZoomable v' =
     handleWheelDelta (TerrainView.delta event) (TerrainView.mZoomable v) /\
   TerrainView.base v' = TerrainView.base v) /\
  (~ (TerrainView.controlHeld event = true /\
      TerrainView.orientation event = TerrainView.Vertical) ->
   TerrainView.calls v' =
     TerrainView.calls v ++ [TerrainView.QTreeView_wheelEvent event] /\
   TerrainView.base v' = baseWheelEvent event (TerrainView.base v) /\
   TerrainView.mZoomable v' = TerrainView.mZoomable v).
Proof.
  cbv zeta. unfold TerrainView.wheelEvent, TerrainView.controlHeld.
  rewrite land_ControlModifier, negb_involutive.
  destruct (Z.testbit (TerrainView.modifiers event) 26);
    destruct (TerrainView.orientation event); cbn;
    (split; [split|split]);
    try solve [ intros H; apply app_inv_head in H; discriminate
              | intros [? ?]; discriminate
              | intros _; repeat split
              | intros H; exfalso; apply H; split; reflexivity
              | repeat split ].
Qed.

Lemma wheelEvent_forwards_witness :
  TerrainView.controlHeld TerrainView.ctrlWheel = true /\
  TerrainView.orientation TerrainView.ctrlWheel = TerrainView.Vertical /\
  TerrainView.mZoomable
    (TerrainView.wheelEvent TerrainView.zoomBy TerrainView.countEvent
       TerrainView.ctrlWheel TerrainView.view0) = 112.
Proof.
  split; [reflexivity|]. split; [reflexivity|].
  destruct (wheelEvent_forwards Z nat TerrainView.zoomBy TerrainView.countEvent
              TerrainView.ctrlWheel TerrainView.view0) as (_ & Hfwd & _).
  destruct (Hfwd (conj eq_refl eq_refl)) as [Hz _].
  rewrite Hz. reflexivity.
Defined.

Example wheelEvent_plain :
  TerrainView.wheelEvent TerrainView.zoomBy TerrainView.countEvent
    TerrainView.plainWheel TerrainView.view0 =
  {| TerrainView.mZoomable := 100; TerrainView.base := 1%nat;
     TerrainView.calls := [TerrainView.QTreeView_wheelEvent TerrainView.plainWheel] |}.
Proof. reflexivity. Qed.

Example wheelEvent_tilt :
  TerrainView.wheelEvent TerrainView.zoomBy TerrainView.countEvent
    TerrainView.ctrlTilt TerrainView.view0 =
  {| TerrainView.mZoomable := 100; TerrainView.base := 1%nat;
     TerrainView.calls := [TerrainView.QTreeView_wheelEvent TerrainView.ctrlTilt] |}.
Proof. reflexivity. Qed.

(** ** C10: the model of a tileset view *)

(** C10.  [tilesetModel] casts the model pointer without a test.  When the
    model installed on the view is a [TilesetModel] the result is that same
    pointer; the null pointer stays null; for a model of any other class
    the result is undefined. *)
Theorem tilesetModel_cast (h : TilesetView.Heap) (v : TilesetView.t) :
  (TilesetView.modelIsTilesetModel h v ->
   TilesetView.tilesetModel h v = Ok (TilesetView.model v)) /\
  (TilesetView.model v = None -> TilesetView.tilesetModel h v = Ok None) /\
  (forall a, TilesetView.model v = Some a ->
             TilesetView.dynamicClass h a <> Some TilesetView.TilesetModelClass ->
             TilesetView.tilesetModel h v = Undefined BadStaticCast).
Proof.
  unfold TilesetView.tilesetModel, TilesetView.static_cast_TilesetModel.
  repeat split.
  - intros (a & -> & ->). reflexivity.
  - intros ->. reflexivity.
  - intros a -> Hne.
    destruct (TilesetView.dynamicClass h a) as [[|]|]; congruence.
Qed.

Lemma tilesetModel_cast_witness :
  TilesetView.modelIsTilesetModel TilesetView.heap1 TilesetView.view1 /\
  TilesetView.tilesetModel TilesetView.heap1 TilesetView.view1 = Ok (Some 16%N).
Proof.
  assert (H : TilesetView.modelIsTilesetModel TilesetView.heap1 TilesetView.view1).
  { exists 16%N. split; reflexivity. }
  split; [exact H|].
  exact (proj1 (tilesetModel_cast TilesetView.heap1 TilesetView.view1) H).
Defined.

Example tilesetModel_other :
  TilesetView.tilesetModel TilesetView.heap1 TilesetView.view2 =
    Undefined BadStaticCast.
Proof. reflexivity. Qed.

(** * Further properties of the scene *)

(** ** The items of the scene *)

Lemma brushCount_app (l1 l2 : list SceneItem) :
  brushCount (l1 ++ l2) = (brushCount l1 + brushCount l2)%nat.
Proof. unfold brushCount. now rewrite filter_app, length_app. Qed.

Lemma object_items_no_brush (os : list MapObject) (z : Z) :
  brushCount (object_items os z) = O.
Proof. revert z. induction os as [|o os IH]; intros z; [reflexivity|apply IH]. Qed.

Lemma layer_items_no_brush (m : Map) (ls : list Layer) (z : Z) :
  brushCount (layer_items m ls z) = O.
Proof.
  revert z. induction ls as [|l ls IH]; intros z; [reflexivity|].
  destruct l as [tl|og|]; cbn [layer_items].
  - apply IH.
  - now rewrite brushCount_app, object_items_no_brush, IH.
  - apply IH.
Qed.

Lemma layer_items_length (m : Map) (ls : list Layer) (z : Z) :
  length (layer_items m ls z) = (countTileLayers ls + countObjects ls)%nat.
Proof.
  revert z. induction ls as [|l ls IH]; intros z; [reflexivity|].
  destruct l as [tl|og|]; cbn [layer_items countTileLayers countObjects].
  - cbn [length]. rewrite IH. lia.
  - rewrite length_app, object_items_length, IH. lia.
  - apply IH.
Qed.

Lemma refreshScene_cases (s s' : t) :
  refreshScene s = Ok s' ->
  (exists d, mMapDocument s = Some d /\ s' = refreshed d s) \/
  (mMapDocument s = None /\
   s' = with_items [BrushRef] (setSceneRect (0, 0, 0, 0) s)).
Proof.
  destruct (mMapDocument s) as [d|] eqn:Hd.
  - rewrite (refreshScene_Some s d Hd). intros [= <-]. left. now exists d.
  - rewrite (refreshScene_None s Hd). intros [= <-]. now right.
Qed.

Lemma refreshScene_returns (s : t) : exists s', refreshScene s = Ok s'.
Proof.
  destruct (mMapDocument s) as [d|] eqn:Hd.
  - exists (refreshed d s). now apply refreshScene_Some.
  - eexists. now apply refreshScene_None.
Qed.

(** X1.  [refreshScene] always returns and builds the scene anew: calling
    it again on its result changes nothing, so items never pile up. *)
Theorem refreshScene_idempotent (s : t) :
  exists s', refreshScene s = Ok s' /\ refreshScene s' = Ok s'.
Proof.
  destruct (mMapDocument s) as [d|] eqn:Hd.
  - exists (refreshed d s). split; [now apply refreshScene_Some|].
    now rewrite (refreshScene_Some (refreshed d s) d Hd).
  - exists (with_items [BrushRef] (setSceneRect (0, 0, 0, 0) s)).
    split; [now apply refreshScene_None|].
    now rewrite (refreshScene_None
                   (with_items [BrushRef] (setSceneRect (0, 0, 0, 0) s)) Hd).
Qed.

(** X2.  [refreshScene] clears the items but keeps the brush: whatever the
    scene held, afterwards the brush is its first item and occurs exactly
    once, and nothing but the items and the scene rectangle has changed. *)
Theorem refreshScene_keeps_brush (s s' : t) :
  refreshScene s = Ok s' ->
  (exists rest, items s' = BrushRef :: rest /\ brushCount rest = O) /\
  mBrush s' = mBrush s /\
  mMapDocument s' = mMapDocument s /\
  mGridVisible s' = mGridVisible s /\
  mBrushVisible s' = mBrushVisible s /\
  mPainting s' = mPainting s /\
  connections s' = connections s /\
  repaints s' = repaints s /\
  paintCalls s' = paintCalls s /\
  brushShows s' = brushShows s.
Proof.
  intros H. apply refreshScene_cases in H.
  destruct H as [(d & Hd & ->)|(Hd & ->)].
  - split; [|repeat split].
    eexists. split; [reflexivity|].
    now rewrite brushCount_app, layer_items_no_brush.
  - split; [|repeat split]. now exists [].
Qed.

Lemma refreshScene_keeps_brush_witness :
  exists s',
    refreshScene scene1 = Ok s' /\
    exists rest, items s' = BrushRef :: rest /\ brushCount rest = O.
Proof.
  destruct (refreshScene_returns scene1) as (s' & Hs').
  exists s'. split; [exact Hs'|].
  exact (proj1 (refreshScene_keeps_brush scene1 s' Hs')).
Defined.

(** X3.  With a document set, [refreshScene] leaves as many items as there
    are tile layers and objects in the map, and two more: the brush and the
    selection item.  A map without tile layers and objects gives just these
    two. *)
Theorem refreshScene_item_count (s s' : t) (d : MapDocument) :
  mMapDocument s = Some d ->
  refreshScene s = Ok s' ->
  length (items s') =
    (2 + countTileLayers (layers (map d)) + countObjects (layers (map d)))%nat /\
  (countTileLayers (layers (map d)) = O ->
   countObjects (layers (map d)) = O ->
   items s' = [BrushRef; TileSelectionItem d 9999]).
Proof.
  intros Hd H. rewrite (refreshScene_Some s d Hd) in H. injection H as <-.
  unfold refreshed; cbn [items with_items].
  split.
  - cbn [length]. rewrite length_app, layer_items_length. cbn [length]. lia.
  - intros Ht Ho.
    assert (E : layer_items (map d) (layers (map d)) 0 = []).
    { apply length_zero_iff_nil. rewrite layer_items_length. lia. }
    now rewrite E.
Qed.

Lemma refreshScene_item_count_witness :
  mMapDocument scene1 = Some doc1 /\
  exists s', refreshScene scene1 = Ok s' /\ length (items s') = 5%nat.
Proof.
  split; [reflexivity|].
  destruct (refreshScene_returns scene1) as (s' & Hs').
  exists s'. split; [exact Hs'|].
  exact (proj1 (refreshScene_item_count scene1 s' doc1 eq_refl Hs')).
Defined.

(** ** The wiring of a scene object *)

Lemma setMapDocument_fields (d : option MapDocument) (s s' : t) :
  setMapDocument d s = Ok s' ->
  connections s' =
    (if is_null (mMapDocument s) then connections s else [])
      ++ (if is_null d then [] else wired) /\
  sceneRect s' = sceneRectFor d /\
  items s' =
    match d with
    | Some d' =>
        BrushRef :: layer_items (map d') (layers (map d')) 0
          ++ [TileSelectionItem d' 9999]
    | None => [BrushRef]
    end /\
  brushDocument (mBrush s') = d /\
  tilePos (mBrush s') = tilePos (mBrush s) /\
  mGridVisible s' = mGridVisible s /\
  repaints s' = repaints s /\
  brushDeleted s' = brushDeleted s.
Proof.
  unfold setMapDocument.
  set (s1 := if negb (is_null (mMapDocument s)) then _ else _).
  assert (exists s1', s1 = Ok s1' /\ mBrush s1' = mBrush s /\
            mGridVisible s1' = mGridVisible s /\ repaints s1' = repaints s /\
            brushDeleted s1' = brushDeleted s /\
            connections s1' = if is_null (mMapDocument s) then connections s else [])
    as (s1' & -> & Hb & Hg & Hr & Hx & Hc).
  { subst s1. destruct (mMapDocument s) as [d0|] eqn:Hd0; cbn.
    - rewrite Hd0; cbn. eexists; split; [reflexivity|]. cbn. repeat split.
      induction (connections s) as [|c cs IHc]; [reflexivity|].
      destruct c; cbn; exact IHc.
    - eexists; split; [reflexivity|]. repeat split. }
  cbn [bind].
  destruct d as [d|].
  - rewrite (refreshScene_Some (with_document (Some d) s1') d eq_refl).
    cbn [bind refreshed with_items setSceneRect with_document mMapDocument
         is_null negb connect with_connections deref].
    intros H. apply updateBrushVisibility_Ok in H. subst s'.
    cbn. rewrite Hb, Hg, Hr, Hx, Hc, <- !app_assoc. repeat split.
  - rewrite (refreshScene_None (with_document None s1') eq_refl).
    cbn [bind with_items setSceneRect with_document mMapDocument is_null negb].
    intros H. apply updateBrushVisibility_Ok in H. subst s'.
    cbn. rewrite Hb, Hg, Hr, Hx, Hc, app_nil_r. repeat split.
Qed.

(** What a call other than [setMapDocument] leaves alone. *)
Lemma run_keeps (c : Call) (s s' : t) :
  run c s = Ok s' ->
  (forall d, c <> CallSetMapDocument d) ->
  mMapDocument s' = mMapDocument s /\
  connections s' = connections s /\
  brushDocument (mBrush s') = brushDocument (mBrush s) /\
  mGridVisible s' = (match c with CallSetGridVisible v => v | _ => mGridVisible s end) /\
  (c <> CallRefreshScene -> items s' = items s /\ sceneRect s' = sceneRect s).
Proof.
  assert (Hsbv : forall v s1, setBrushVisible v s = Ok s1 ->
            mMapDocument s1 = mMapDocument s /\ connections s1 = connections s /\
            brushDocument (mBrush s1) = brushDocument (mBrush s) /\
            mGridVisible s1 = mGridVisible s /\
            items s1 = items s /\ sceneRect s1 = sceneRect s).
  { intros v s1 H. apply setBrushVisible_Ok in H.
    destruct H as [[_ ->]|[_ ->]]; repeat split. }
  destruct c as [d0| |region|v|v| |e|e| |]; cbn [run]; intros H Hc.
  - now destruct (Hc d0).
  - apply refreshScene_cases in H.
    destruct H as [(d & Hd & ->)|(Hd & ->)]; repeat split; congruence.
  - destruct (mMapDocument s) as [d|] eqn:Hd.
    + rewrite (repaintRegion_Some region s d Hd) in H. injection H as <-.
      destruct (repaints_only d region s) as (E1 & E2 & E3 & _ & _ & E6 & E7 & _).
      rewrite E1, E2, E3, E6, E7, Hd. repeat split.
      clear. revert s. induction region as [|r region IH]; intros s; cbn [fold_left];
        [reflexivity|]. now rewrite IH.
    + rewrite (repaintRegion_None region s Hd) in H.
      destruct region; [|discriminate]. injection H as <-. rewrite Hd. repeat split.
  - unfold setGridVisible in H.
    destruct (Bool.eqb (mGridVisible s) v) eqn:E; injection H as <-; repeat split.
    now apply Bool.eqb_prop in E.
  - destruct (Hsbv _ _ H) as (? & ? & ? & ? & ? & ?). repeat split; assumption.
  - apply updateBrushVisibility_Ok in H. subst s'. repeat split.
  - unfold event in H.
    assert (exists v, type e <> OtherEvent -> setBrushVisible v s = Ok s') as [v Hv].
    { destruct (type e); cbn [bind] in H.
      - exists true. intros _.
        destruct (setBrushVisible true s) as [s1| |]; cbn [bind snd] in H;
          try discriminate. now injection H as <-.
      - exists false. intros _.
        destruct (setBrushVisible false s) as [s1| |]; cbn [bind snd] in H;
          try discriminate. now injection H as <-.
      - exists true. intros Hne. now destruct Hne. }
    destruct (type e) eqn:Et.
    + destruct (Hsbv _ _ (Hv ltac:(discriminate))) as (? & ? & ? & ? & ? & ?).
      repeat split; assumption.
    + destruct (Hsbv _ _ (Hv ltac:(discriminate))) as (? & ? & ? & ? & ? & ?).
      repeat split; assumption.
    + cbn in H. injection H as <-. repeat split.
  - unfold mouseMoveEvent in H.
    destruct (mMapDocument s) as [d|] eqn:Hd; cbn [is_null] in H;
      [|injection H as <-; rewrite Hd; repeat split].
    destruct (acceptedByBase e); [injection H as <-; rewrite Hd; repeat split|].
    cbn [deref bind] in H. unfold int_div in H.
    destruct (tileWidth (map d) =? 0); [discriminate|]. cbn [bind] in H.
    destruct (tileHeight (map d) =? 0); [discriminate|]. cbn [bind] in H.
    injection H as <-. cbn. rewrite Hd. repeat split.
  - unfold mousePressEvent in H.
    destruct (visible (mBrush s)); injection H as <-; repeat split.
  - unfold mouseReleaseEvent in H.
    destruct (mPainting s); injection H as <-; repeat split.
Qed.

(** No call deletes the brush object. *)
Lemma run_keeps_brush (c : Call) (s s' : t) :
  run c s = Ok s' -> brushDeleted s' = brushDeleted s.
Proof.
  assert (Hsbv : forall v s1, setBrushVisible v s = Ok s1 ->
                   brushDeleted s1 = brushDeleted s).
  { intros v s1 H. apply setBrushVisible_Ok in H.
    destruct H as [[_ ->]|[_ ->]]; reflexivity. }
  destruct c as [d0| |region|v|v| |e|e| |]; cbn [run]; intros H.
  - apply setMapDocument_fields in H. apply H.
  - apply refreshScene_cases in H.
    destruct H as [(d & Hd & ->)|(Hd & ->)]; reflexivity.
  - destruct (mMapDocument s) as [d|] eqn:Hd.
    + rewrite (repaintRegion_Some region s d Hd) in H. injection H as <-.
      clear. revert s. induction region as [|r region IH]; intros s; cbn [fold_left];
        [reflexivity|]. now rewrite IH.
    + rewrite (repaintRegion_None region s Hd) in H.
      destruct region; [|discriminate]. now injection H as <-.
  - unfold setGridVisible in H.
    destruct (Bool.eqb (mGridVisible s) v); now injection H as <-.
  - eapply Hsbv; eassumption.
  - apply updateBrushVisibility_Ok in H. now subst s'.
  - unfold event in H.
    destruct (type e); cbn [bind] in H.
    + destruct (setBrushVisible true s) as [s1| |] eqn:E; cbn [bind snd] in H;
        try discriminate. injection H as <-. eapply Hsbv; eassumption.
    + destruct (setBrushVisible false s) as [s1| |] eqn:E; cbn [bind snd] in H;
        try discriminate. injection H as <-. eapply Hsbv; eassumption.
    + cbn in H. now injection H as <-.
  - unfold mouseMoveEvent in H.
    destruct (mMapDocument s) as [d|] eqn:Hd; cbn [is_null] in H;
      [|now injection H as <-].
    destruct (acceptedByBase e); [now injection H as <-|].
    cbn [deref bind] in H. unfold int_div in H.
    destruct (tileWidth (map d) =? 0); [discriminate|]. cbn [bind] in H.
    destruct (tileHeight (map d) =? 0); [discriminate|]. cbn [bind] in H.
    now injection H as <-.
  - unfold mousePressEvent in H.
    destruct (visible (mBrush s)); now injection H as <-.
  - unfold mouseReleaseEvent in H.
    destruct (mPainting s); now injection H as <-.
Qed.

Lemma wiring_step (c : Call) (s s' : t) :
  run c s = Ok s' -> wiring s -> wiring s'.
Proof.
  intros H (Wc & Wb & Wx).
  pose proof (run_keeps_brush _ _ _ H) as Ex.
  destruct c as [d0| |region|v|v| |e|e| |];
    try (destruct (run_keeps _ _ _ H ltac:(discriminate))
           as (Ed & Ec & _ & _ & Ei);
         destruct (Ei ltac:(discriminate)) as [Ei1 Ei2];
         unfold wiring; rewrite Ed, Ec, Ei1, Ex; now repeat split).
  - cbn [run] in H. pose proof (setMapDocument_Ok _ _ _ H) as (Ed & _).
    apply setMapDocument_fields in H. destruct H as (Ec & Er & Ei & _).
    unfold wiring. rewrite Ec, Ei, Ed, Wc, Ex. repeat split; trivial.
    + now destruct (mMapDocument s).
    + destruct d0 as [d|]; [|reflexivity].
      change (BrushRef :: ?l) with ([BrushRef] ++ l).
      now rewrite !brushCount_app, layer_items_no_brush.
  - destruct (run_keeps _ _ _ H ltac:(discriminate)) as (Ed & Ec & _).
    cbn [run] in H. unfold wiring. rewrite Ed, Ec, Ex.
    apply refreshScene_cases in H.
    destruct H as [(d & Hd & ->)|(Hd & ->)]; repeat split; trivial.
    unfold refreshed; cbn [items with_items].
    change (BrushRef :: ?l) with ([BrushRef] ++ l).
    now rewrite !brushCount_app, layer_items_no_brush.
Qed.

Lemma reachable_wiring (s : t) : reachable s -> wiring s.
Proof.
  induction 1 as [fresh|c s s' _ IH Hrun|s d d' _ IH Hd].
  - repeat split.
  - eapply wiring_step; eassumption.
  - destruct IH as (Wc & Wb & Wx). unfold wiring; cbn.
    rewrite Hd in Wc. repeat split; assumption.
Qed.

(** X4.  However often and in whatever order the methods of a scene object
    are called, each signal is connected to it at most once: the
    connections are the three [setMapDocument] makes while a document is
    set, and none while there is none. *)
Theorem connections_follow_document (s : t) :
  reachable s ->
  connections s = if is_null (mMapDocument s) then [] else wired.
Proof. intros Hr. apply reachable_wiring in Hr. apply Hr. Qed.

Lemma connections_follow_document_witness :
  reachable scene1 /\ connections scene1 = wired.
Proof.
  split; [exact reachable_scene1|].
  exact (connections_follow_document scene1 reachable_scene1).
Defined.

(** X5.  [refreshScene], and [setMapDocument] through it, set the scene
    rectangle from the document at hand: on a map for which the [int]
    arithmetic stays in range it is the map's size in pixels plus one pixel
    each way, to leave room for the right and bottom grid lines, and
    without a document it is the null rectangle. *)
Theorem sceneRect_follows_document (s s' : t) :
  (forall d, mMapDocument s = Some d -> refresh_fits (map d) ->
             refreshScene s = Ok s' ->
             sceneRect s' =
               (0, 0, width (map d) * tileWidth (map d) + 1,
                height (map d) * tileHeight (map d) + 1)) /\
  (mMapDocument s = None -> refreshScene s = Ok s' ->
   sceneRect s' = (0, 0, 0, 0)) /\
  (forall d, refresh_fits (map d) -> setMapDocument (Some d) s = Ok s' ->
             sceneRect s' =
               (0, 0, width (map d) * tileWidth (map d) + 1,
                height (map d) * tileHeight (map d) + 1)) /\
  (setMapDocument None s = Ok s' -> sceneRect s' = (0, 0, 0, 0)).
Proof.
  repeat apply conj.
  - intros d Hd _ H. rewrite (refreshScene_Some s d Hd) in H. now injection H as <-.
  - intros Hd H. rewrite (refreshScene_None s Hd) in H. now injection H as <-.
  - intros d _ H. apply setMapDocument_fields in H. apply H.
  - intros H. apply setMapDocument_fields in H. apply H.
Qed.

Lemma sceneRect_follows_document_witness :
  refresh_fits (map doc1) /\
  setMapDocument (Some doc1) (new fresh0) = Ok scene1 /\
  sceneRect scene1 = (0, 0, 129, 49).
Proof.
  assert (H : setMapDocument (Some doc1) (new fresh0) = Ok scene1)
    by (vm_compute; reflexivity).
  split; [exact refresh_fits_map1|]. split; [exact H|].
  exact (proj1 (proj2 (proj2 (sceneRect_follows_document (new fresh0) scene1)))
           doc1 refresh_fits_map1 H).
Defined.

(** X6.  No call deletes the brush item or adds it a second time: between
    calls, and whatever the owner of the document changes, the brush object
    is alive and among the items of the scene exactly once.  It survives
    [refreshScene] because it is taken out of the scene first:
    [QGraphicsScene::clear] deletes whatever is in the scene, the brush
    included if it is there. *)
Theorem brush_item_once :
  (forall s, reachable s ->
             brushDeleted s = false /\ brushCount (items s) = 1%nat) /\
  (forall s, In BrushRef (items s) -> brushDeleted (clear s) = true) /\
  (forall s, brushDeleted (clear (removeItem_brush s)) = brushDeleted s).
Proof.
  repeat apply conj.
  - intros s Hr. apply reachable_wiring in Hr. split; apply Hr.
  - intros s Hin. unfold clear; cbn [brushDeleted].
    assert (E : existsb item_eqb_brush (items s) = true).
    { apply existsb_exists. now exists BrushRef. }
    rewrite E. apply orb_true_r.
  - intros s. unfold clear, removeItem_brush; cbn [brushDeleted items with_items].
    now rewrite no_brush_left, orb_false_r.
Qed.

Lemma brush_item_once_witness :
  reachable scene_stale /\
  brushDeleted scene_stale = false /\ brushCount (items scene_stale) = 1%nat.
Proof.
  split; [exact reachable_scene_stale|].
  exact (proj1 brush_item_once scene_stale reachable_scene_stale).
Defined.

(** X7.  Taking the document away with [setMapDocument(0)] always returns
    and leaves an empty scene: only the brush item, hidden and without a
    document, the null scene rectangle and no connection.  The painting
    state is not touched. *)
Theorem setMapDocument_detach (s : t) :
  reachable s ->
  exists s',
    setMapDocument None s = Ok s' /\
    mMapDocument s' = None /\
    items s' = [BrushRef] /\
    sceneRect s' = (0, 0, 0, 0) /\
    connections s' = [] /\
    visible (mBrush s') = false /\
    brushDocument (mBrush s') = None /\
    mPainting s' = mPainting s /\
    paintCalls s' = paintCalls s.
Proof.
  intros Hr.
  destruct (setMapDocument_returns None s) as [s' Hs']; [discriminate|].
  exists s'. split; [exact Hs'|].
  pose proof (setMapDocument_Ok _ _ _ Hs') as (Ed & Ev & _ & _ & Ep & El & _).
  pose proof (setMapDocument_fields _ _ _ Hs') as (Ec & Er & Ei & Eb & _).
  apply reachable_wiring in Hr. destruct Hr as (Wc & _).
  repeat split; trivial.
  - rewrite Ec, Wc. now destruct (mMapDocument s).
  - rewrite Ev. unfold brushShown. rewrite Ed. apply andb_false_r.
Qed.

Lemma setMapDocument_detach_witness :
  reachable scene1 /\
  exists s', setMapDocument None scene1 = Ok s' /\ items s' = [BrushRef].
Proof.
  split; [exact reachable_scene1|].
  destruct (setMapDocument_detach scene1 reachable_scene1)
    as (s' & H1 & _ & H3 & _).
  exists s'. split; assumption.
Defined.

(** ** Entering and leaving the scene *)

(** X8.  A Leave event always returns, whatever the document's current
    layer is, hands back the answer of the base class, and leaves the brush
    flag clear and the brush item hidden. *)
Theorem event_Leave_hides_brush (s : t) (answer : bool) :
  reachable s ->
  exists s',
    event {| type := Leave; handledByBase := answer |} s = Ok (answer, s') /\
    mBrushVisible s' = false /\
    visible (mBrush s') = false.
Proof.
  intros Hr. apply reachable_invariant in Hr. destruct Hr as (_ & Hv & _).
  unfold event; cbn [type handledByBase]. unfold setBrushVisible.
  destruct (mBrushVisible s) eqn:Hf; cbn [Bool.eqb].
  - unfold updateBrushVisibility. cbn [mBrushVisible with_brushVisible andb bind].
    eexists. split; [reflexivity|]. split; reflexivity.
  - cbn [bind]. exists s. split; [reflexivity|]. split; [exact Hf|].
    destruct (visible (mBrush s)); [|reflexivity].
    destruct (Hv eq_refl) as [Hflag _]. discriminate Hflag.
Qed.

Lemma event_Leave_hides_brush_witness :
  reachable scene1 /\
  exists s',
    event {| type := Leave; handledByBase := true |} scene1 = Ok (true, s') /\
    visible (mBrush s') = false.
Proof.
  split; [exact reachable_scene1|].
  destruct (event_Leave_hides_brush scene1 true reachable_scene1)
    as (s' & H1 & _ & H3).
  exists s'. split; assumption.
Defined.

Lemma updateBrushVisibility_undefined (s : t) (d : MapDocument) :
  mBrushVisible s = true -> mMapDocument s = Some d -> ~ currentLayerValid d ->
  updateBrushVisibility s = Undefined IndexOutOfRange.
Proof.
  intros Hf Hd Hbad. unfold updateBrushVisibility.
  rewrite Hf, Hd. cbn [is_null negb andb deref bind].
  unfold currentLayerValid in Hbad. now rewrite at_invalid.
Qed.

(** X9.  A document whose map has no layers has no valid current layer, so
    showing the brush over it is undefined ([QList::at] on an empty list):
    an Enter event on a scene with such a document, and installing such a
    document while the brush flag is set, do not return.  With the flag
    clear the document can be installed. *)
Theorem empty_map_brush_undefined (d : MapDocument) :
  layers (map d) = [] ->
  ~ currentLayerValid d /\
  (forall s answer,
     mMapDocument s = Some d -> mBrushVisible s = false ->
     event {| type := Enter; handledByBase := answer |} s
       = Undefined IndexOutOfRange) /\
  (forall s, mBrushVisible s = true ->
             setMapDocument (Some d) s = Undefined IndexOutOfRange) /\
  (forall s, mBrushVisible s = false ->
             exists s', setMapDocument (Some d) s = Ok s').
Proof.
  intros Hempty.
  assert (Hbad : ~ currentLayerValid d).
  { unfold currentLayerValid. rewrite Hempty. cbn. lia. }
  assert (Hset : forall s,
            exists s1, mBrushVisible s1 = mBrushVisible s /\
                       mMapDocument s1 = Some d /\
                       setMapDocument (Some d) s = updateBrushVisibility s1).
  { intros s. unfold setMapDocument.
    set (s0 := if negb (is_null (mMapDocument s)) then _ else _).
    assert (exists s0', s0 = Ok s0' /\ mBrushVisible s0' = mBrushVisible s)
      as (s0' & -> & Hf).
    { subst s0. destruct (mMapDocument s) as [d0|] eqn:Hd0; cbn.
      - rewrite Hd0; cbn. eexists; split; reflexivity.
      - eexists; split; reflexivity. }
    cbn [bind].
    rewrite (refreshScene_Some (with_document (Some d) s0') d eq_refl).
    cbn [bind refreshed with_items setSceneRect with_document mMapDocument
         is_null negb connect with_connections deref].
    eexists. split; [|split; [|reflexivity]]; [exact Hf|reflexivity]. }
  split; [exact Hbad|]. split; [|split].
  - intros s answer Hd Hf. unfold event; cbn [type]. unfold setBrushVisible.
    rewrite Hf. cbn [Bool.eqb].
    rewrite (updateBrushVisibility_undefined _ d); trivial.
  - intros s Hf. destruct (Hset s) as (s1 & Hf1 & Hd1 & ->).
    apply (updateBrushVisibility_undefined _ d); congruence.
  - intros s Hf. destruct (Hset s) as (s1 & Hf1 & Hd1 & ->).
    unfold updateBrushVisibility. rewrite Hf1, Hf. cbn [andb bind].
    eexists; reflexivity.
Qed.

Lemma empty_map_brush_undefined_witness :
  layers (map doc_bare) = [] /\
  setMapDocument (Some doc_bare) scene_entered = Undefined IndexOutOfRange.
Proof.
  split; [reflexivity|].
  destruct (empty_map_brush_undefined doc_bare eq_refl) as (_ & _ & Hset & _).
  apply Hset. reflexivity.
Defined.

(** ** Repainting a region *)

Lemma repaints_fold (d : MapDocument) (region : list QRect) : forall s : t,
  repaints (fold_left (fun s r => update (UpdatePixelsOf d r) s) region s) =
    repaints s ++ List.map (UpdatePixelsOf d) region.
Proof.
  induction region as [|r region IH]; intros s; cbn [fold_left List.map].
  - now rewrite app_nil_r.
  - rewrite IH. cbn [repaints update]. now rewrite <- app_assoc.
Qed.

Lemma repaintRect_bind (region : list QRect) (r : result t) :
  fold_left repaintRect region r = (s <- r ;; repaintRegion region s).
Proof.
  destruct r as [s|u|]; cbn [bind].
  - reflexivity.
  - apply repaintRegion_stuck.
  - induction region; cbn; [reflexivity|assumption].
Qed.

(** X10.  [repaintRegion] over a region in two parts is [repaintRegion]
    over the first part and then over the second.  With a document set it
    returns and asks for one repaint per rectangle, in the order of the
    region, each for that rectangle in the document's pixel coordinates;
    nothing else of the scene changes, and the empty region asks for
    nothing. *)
Theorem repaintRegion_requests (s : t) :
  (forall a b, repaintRegion (a ++ b) s =
                 (s1 <- repaintRegion a s ;; repaintRegion b s1)) /\
  (forall d region,
     mMapDocument s = Some d ->
     exists s',
       repaintRegion region s = Ok s' /\
       repaints s' = repaints s ++ List.map (UpdatePixelsOf d) region /\
       mMapDocument s' = mMapDocument s /\ mBrush s' = mBrush s /\
       mGridVisible s' = mGridVisible s /\ mBrushVisible s' = mBrushVisible s /\
       mPainting s' = mPainting s /\ items s' = items s /\
       connections s' = connections s /\ paintCalls s' = paintCalls s).
Proof.
  split.
  - intros a b. unfold repaintRegion at 1. rewrite fold_left_app.
    apply repaintRect_bind.
  - intros d region Hd. rewrite (repaintRegion_Some region s d Hd).
    eexists. split; [reflexivity|]. split; [apply repaints_fold|].
    apply repaints_only.
Qed.

Lemma repaintRegion_requests_witness :
  mMapDocument scene1 = Some doc1 /\
  exists s',
    repaintRegion region2 scene1 = Ok s' /\
    repaints s' = repaints scene1 ++ List.map (UpdatePixelsOf doc1) region2.
Proof.
  split; [reflexivity|].
  destruct (proj2 (repaintRegion_requests scene1) doc1 region2 eq_refl)
    as (s' & H1 & H2 & _).
  exists s'. split; assumption.
Defined.

(** ** Where the brush goes *)

Section BrushPosition.

Variables (s : t) (d : MapDocument) (e : QGraphicsSceneMouseEvent).
Hypothesis Hdoc : mMapDocument s = Some d.
Hypothesis Hfree : acceptedByBase e = false.
Hypothesis Hw : 0 < tileWidth (map d).
Hypothesis Hh : 0 < tileHeight (map d).

Lemma mouseMoveEvent_moves :
  mouseMoveEvent e s =
    Ok (with_brush
          (setTilePos (Z.quot (to_int (fst (scenePos e))) (tileWidth (map d)))
                      (Z.quot (to_int (snd (scenePos e))) (tileHeight (map d)))
                      (mBrush s)) s).
Proof.
  unfold mouseMoveEvent. rewrite Hdoc, Hfree. cbn [is_null deref bind].
  unfold int_div.
  destruct (Z.eqb_spec (tileWidth (map d)) 0); [lia|].
  destruct (Z.eqb_spec (tileHeight (map d)) 0); [lia|]. reflexivity.
Qed.

End BrushPosition.

(** X11.  A pointer over the map puts the brush on a tile of the map: for
    a move no item accepts, with positive tile sizes, a map whose size in
    pixels fits an [int] and a position with 0 <= x < width * tileWidth and
    0 <= y < height * tileHeight, the brush's tile position has
    0 <= column < width and 0 <= row < height. *)
Theorem mouseMoveEvent_inside_map (s : t) (d : MapDocument)
    (e : QGraphicsSceneMouseEvent) :
  mMapDocument s = Some d ->
  acceptedByBase e = false ->
  0 < tileWidth (map d) -> 0 < tileHeight (map d) ->
  int_range (width (map d) * tileWidth (map d)) ->
  int_range (height (map d) * tileHeight (map d)) ->
  (0 <= fst (scenePos e))%Q ->
  (fst (scenePos e) < inject_Z (width (map d) * tileWidth (map d)))%Q ->
  (0 <= snd (scenePos e))%Q ->
  (snd (scenePos e) < inject_Z (height (map d) * tileHeight (map d)))%Q ->
  exists s',
    mouseMoveEvent e s = Ok s' /\
    castable (fst (scenePos e)) /\ castable (snd (scenePos e)) /\
    0 <= fst (tilePos (mBrush s')) < width (map d) /\
    0 <= snd (tilePos (mBrush s')) < height (map d).
Proof.
  intros Hd Hf Hw Hh Rw Rh Hx0 Hx1 Hy0 Hy1.
  rewrite (mouseMoveEvent_moves s d e Hd Hf Hw Hh).
  eexists. split; [reflexivity|].
  cbn [with_brush mBrush setTilePos tilePos fst snd].
  pose proof (to_int_range _ _ Hx0 Hx1) as Hx.
  pose proof (to_int_range _ _ Hy0 Hy1) as Hy.
  unfold castable, int_range, int_min in *.
  split; [lia|]. split; [lia|].
  split; (split; [apply Z.quot_pos; lia|apply Z.quot_lt_upper_bound; lia]).
Qed.

Lemma mouseMoveEvent_inside_map_witness :
  exists s',
    mouseMoveEvent move1 scene1 = Ok s' /\
    0 <= fst (tilePos (mBrush s')) < width (map doc1) /\
    0 <= snd (tilePos (mBrush s')) < height (map doc1).
Proof.
  destruct (mouseMoveEvent_inside_map scene1 doc1 move1)
    as (s' & H1 & _ & _ & H2 & H3);
    [reflexivity | reflexivity | reflexivity | reflexivity
    | in_range | in_range
    | vm_compute; discriminate | reflexivity
    | vm_compute; discriminate | reflexivity |].
  exists s'. split; [exact H1|]. split; assumption.
Defined.

(** X12.  The scene rectangle is one pixel wider than the map, and on that
    last pixel column the brush leaves the map: when the map's width in
    pixels fits an [int], for
    width * tileWidth <= x < width * tileWidth + 1 the brush's column is
    [width], one past the last column.  The same holds for the last pixel
    row. *)
Theorem mouseMoveEvent_last_pixel (s : t) (d : MapDocument)
    (e : QGraphicsSceneMouseEvent) :
  mMapDocument s = Some d ->
  acceptedByBase e = false ->
  0 < tileWidth (map d) -> 0 < tileHeight (map d) ->
  exists s',
    mouseMoveEvent e s = Ok s' /\
    (0 <= width (map d) ->
     int_range (width (map d) * tileWidth (map d)) ->
     (inject_Z (width (map d) * tileWidth (map d)) <= fst (scenePos e))%Q ->
     (fst (scenePos e) < inject_Z (width (map d) * tileWidth (map d) + 1))%Q ->
     castable (fst (scenePos e)) /\
     fst (tilePos (mBrush s')) = width (map d)) /\
    (0 <= height (map d) ->
     int_range (height (map d) * tileHeight (map d)) ->
     (inject_Z (height (map d) * tileHeight (map d)) <= snd (scenePos e))%Q ->
     (snd (scenePos e) < inject_Z (height (map d) * tileHeight (map d) + 1))%Q ->
     castable (snd (scenePos e)) /\
     snd (tilePos (mBrush s')) = height (map d)).
Proof.
  intros Hd Hf Hw Hh.
  rewrite (mouseMoveEvent_moves s d e Hd Hf Hw Hh).
  eexists. split; [reflexivity|].
  cbn [with_brush mBrush setTilePos tilePos fst snd]. unfold castable.
  split; intros H0 Hr Hlo Hhi.
  - rewrite (to_int_on_integer _ (width (map d) * tileWidth (map d)));
      [split; [exact Hr|apply Z.quot_mul; lia] | nia | exact Hlo | exact Hhi].
  - rewrite (to_int_on_integer _ (height (map d) * tileHeight (map d)));
      [split; [exact Hr|apply Z.quot_mul; lia] | nia | exact Hlo | exact Hhi].
Qed.

Lemma mouseMoveEvent_last_pixel_witness :
  exists s',
    mouseMoveEvent move_edge scene1 = Ok s' /\
    fst (tilePos (mBrush s')) = width (map doc1).
Proof.
  destruct (mouseMoveEvent_last_pixel scene1 doc1 move_edge)
    as (s' & H1 & H2 & _); try reflexivity.
  exists s'. split; [exact H1|]. apply H2.
  - discriminate.
  - in_range.
  - vm_compute; discriminate.
  - reflexivity.
Defined.

(** X13.  Left of the map the brush stays on column 0 for a whole tile
    width: every position with -tileWidth < x < tileWidth gives column 0,
    and every position with -tileHeight < y < tileHeight row 0. *)
Theorem mouseMoveEvent_wide_first_cell (s : t) (d : MapDocument)
    (e : QGraphicsSceneMouseEvent) :
  mMapDocument s = Some d ->
  acceptedByBase e = false ->
  0 < tileWidth (map d) -> 0 < tileHeight (map d) ->
  exists s',
    mouseMoveEvent e s = Ok s' /\
    ((- inject_Z (tileWidth (map d)) < fst (scenePos e))%Q ->
     (fst (scenePos e) < inject_Z (tileWidth (map d)))%Q ->
     fst (tilePos (mBrush s')) = 0) /\
    ((- inject_Z (tileHeight (map d)) < snd (scenePos e))%Q ->
     (snd (scenePos e) < inject_Z (tileHeight (map d)))%Q ->
     snd (tilePos (mBrush s')) = 0).
Proof.
  intros Hd Hf Hw Hh.
  rewrite (mouseMoveEvent_moves s d e Hd Hf Hw Hh).
  eexists. split; [reflexivity|].
  cbn [with_brush mBrush setTilePos tilePos fst snd].
  split; intros Hlo Hhi; apply quot_within; now apply to_int_within.
Qed.

Lemma mouseMoveEvent_wide_first_cell_witness :
  exists s',
    mouseMoveEvent move_left scene1 = Ok s' /\
    fst (tilePos (mBrush s')) = 0.
Proof.
  destruct (mouseMoveEvent_wide_first_cell scene1 doc1 move_left)
    as (s' & H1 & H2 & _); try reflexivity.
  exists s'. split; [exact H1|]. apply H2; reflexivity.
Defined.

(** ** The grid has no gap *)

Lemma for_lines_complete (stop step : Z) (line : Z -> PainterCmd) (fuel : nat) :
  0 < step ->
  forall (i : Z) (cmds : list PainterCmd),
  for_lines fuel i stop step line = Ok cmds ->
  forall k : nat, i + Z.of_nat k * step < stop ->
  In (line (i + Z.of_nat k * step)) cmds.
Proof.
  intros Hstep.
  induction fuel as [|fuel IH]; intros i cmds; cbn [for_lines];
    destruct (Z.ltb_spec i stop) as [Hlt|Hge].
  - discriminate.
  - intros _ k Hk. nia.
  - destruct (for_lines fuel (i + step) stop step line) as [rest| |] eqn:E;
      cbn [bind]; try discriminate.
    intros [= <-] k Hk. destruct k as [|k].
    + left. f_equal. lia.
    + right.
      replace (i + Z.of_nat (S k) * step)
        with (i + step + Z.of_nat k * step) in * by lia.
      now apply (IH _ _ E).
  - intros _ k Hk. nia.
Qed.

Lemma drawForeground_lines (fdiv : Q -> Z -> Q) (fadd : Q -> Q -> Q)
    (rect : QRectF) (s : t) (d : MapDocument) (fuel : nat) :
  mMapDocument s = Some d -> mGridVisible s = true ->
  0 < tileWidth (map d) -> 0 < tileHeight (map d) ->
  drawForeground fdiv fadd fuel rect s =
    (vertical <-
       for_lines fuel (startX fdiv (map d) rect) (endX fadd (map d) rect)
         (tileWidth (map d))
         (fun x => DrawLine x (to_int (top rect)) x (endY fadd (map d) rect - 1)) ;;
     horizontal <-
       for_lines fuel (startY fdiv (map d) rect) (endY fadd (map d) rect)
         (tileHeight (map d))
         (fun y => DrawLine (to_int (left rect)) y (endX fadd (map d) rect - 1) y) ;;
     Ok ([SetPen_black; SetOpacity_half] ++ vertical ++ horizontal)).
Proof.
  intros Hd Hg Hw Hh. unfold drawForeground. rewrite Hd, Hg.
  cbn [is_null negb orb deref bind].
  destruct (Z.eqb_spec (tileWidth (map d)) 0); [lia|].
  destruct (Z.eqb_spec (tileHeight (map d)) 0); [lia|]. reflexivity.
Qed.

Lemma drawForeground_returns (fdiv : Q -> Z -> Q) (fadd : Q -> Q -> Q)
    (rect : QRectF) (s : t) (d : MapDocument) :
  mMapDocument s = Some d -> mGridVisible s = true ->
  0 < tileWidth (map d) -> 0 < tileHeight (map d) ->
  exists fuel cmds, drawForeground fdiv fadd fuel rect s = Ok cmds.
Proof.
  intros Hd Hg Hw Hh.
  set (n := Nat.max
              (Z.to_nat (endX fadd (map d) rect - startX fdiv (map d) rect))
              (Z.to_nat (endY fadd (map d) rect - startY fdiv (map d) rect))).
  exists n. rewrite (drawForeground_lines fdiv fadd rect s d n Hd Hg Hw Hh).
  destruct (for_lines_returns (endX fadd (map d) rect) (tileWidth (map d))
              (fun x => DrawLine x (to_int (top rect)) x (endY fadd (map d) rect - 1))
              n (startX fdiv (map d) rect) Hw) as [v ->]; [lia|].
  destruct (for_lines_returns (endY fadd (map d) rect) (tileHeight (map d))
              (fun y => DrawLine (to_int (left rect)) y (endX fadd (map d) rect - 1) y)
              n (startY fdiv (map d) rect) Hh) as [h ->]; [lia|].
  cbn [bind]. eexists; reflexivity.
Qed.

(** X14.  When [drawForeground] draws the grid (document set, grid visible,
    positive tile sizes, casts and [int] arithmetic in range) it returns on
    enough fuel and leaves no line out: every [startX + k * tileWidth]
    below [endX] has its vertical line and every [startY + k * tileHeight]
    below [endY] its horizontal line.  In particular the right border line
    of the map, at x = width * tileWidth, is drawn whenever the exposed
    rectangle starts at or left of it and reaches beyond it, which is what
    the extra pixel of the scene rectangle is for; and likewise the bottom
    border line. *)
Theorem drawForeground_no_gap (fdiv : Q -> Z -> Q) (fadd : Q -> Q -> Q)
    (rect : QRectF) (s : t) (d : MapDocument) :
  mMapDocument s = Some d -> mGridVisible s = true ->
  0 < tileWidth (map d) -> 0 < tileHeight (map d) ->
  foreground_fits fdiv fadd (map d) rect ->
  (exists fuel cmds, drawForeground fdiv fadd fuel rect s = Ok cmds) /\
  forall (fuel : nat) (cmds : list PainterCmd),
  drawForeground fdiv fadd fuel rect s = Ok cmds ->
  (forall k : nat,
     startX fdiv (map d) rect + Z.of_nat k * tileWidth (map d)
       < endX fadd (map d) rect ->
     In (DrawLine (startX fdiv (map d) rect + Z.of_nat k * tileWidth (map d))
                  (to_int (top rect))
                  (startX fdiv (map d) rect + Z.of_nat k * tileWidth (map d))
                  (endY fadd (map d) rect - 1)) cmds) /\
  (forall k : nat,
     startY fdiv (map d) rect + Z.of_nat k * tileHeight (map d)
       < endY fadd (map d) rect ->
     In (DrawLine (to_int (left rect))
                  (startY fdiv (map d) rect + Z.of_nat k * tileHeight (map d))
                  (endX fadd (map d) rect - 1)
                  (startY fdiv (map d) rect + Z.of_nat k * tileHeight (map d)))
        cmds) /\
  (startX fdiv (map d) rect <= width (map d) * tileWidth (map d) ->
   width (map d) * tileWidth (map d) < to_int (right fadd rect) ->
   In (DrawLine (width (map d) * tileWidth (map d)) (to_int (top rect))
                (width (map d) * tileWidth (map d))
                (endY fadd (map d) rect - 1)) cmds) /\
  (startY fdiv (map d) rect <= height (map d) * tileHeight (map d) ->
   height (map d) * tileHeight (map d) < to_int (bottom fadd rect) ->
   In (DrawLine (to_int (left rect)) (height (map d) * tileHeight (map d))
                (endX fadd (map d) rect - 1)
                (height (map d) * tileHeight (map d))) cmds).
Proof.
  intros Hd Hg Hw Hh _.
  split; [now apply (drawForeground_returns fdiv fadd rect s d)|].
  intros fuel cmds.
  rewrite (drawForeground_lines fdiv fadd rect s d fuel Hd Hg Hw Hh).
  destruct (for_lines fuel (startX fdiv (map d) rect) _ _ _) as [v| |] eqn:Ev;
    cbn [bind]; try discriminate.
  destruct (for_lines fuel (startY fdiv (map d) rect) _ _ _) as [h| |] eqn:Eh;
    cbn [bind]; try discriminate.
  intros [= <-].
  assert (Hv : forall k : nat,
    startX fdiv (map d) rect + Z.of_nat k * tileWidth (map d)
      < endX fadd (map d) rect ->
    In (DrawLine (startX fdiv (map d) rect + Z.of_nat k * tileWidth (map d))
                 (to_int (top rect))
                 (startX fdiv (map d) rect + Z.of_nat k * tileWidth (map d))
                 (endY fadd (map d) rect - 1))
       ([SetPen_black; SetOpacity_half] ++ v ++ h)).
  { intros k Hk. apply in_or_app. right. apply in_or_app. left.
    exact (for_lines_complete _ _ _ _ Hw _ _ Ev k Hk). }
  assert (Hl : forall k : nat,
    startY fdiv (map d) rect + Z.of_nat k * tileHeight (map d)
      < endY fadd (map d) rect ->
    In (DrawLine (to_int (left rect))
                 (startY fdiv (map d) rect + Z.of_nat k * tileHeight (map d))
                 (endX fadd (map d) rect - 1)
                 (startY fdiv (map d) rect + Z.of_nat k * tileHeight (map d)))
       ([SetPen_black; SetOpacity_half] ++ v ++ h)).
  { intros k Hk. apply in_or_app. right. apply in_or_app. right.
    exact (for_lines_complete _ _ _ _ Hh _ _ Eh k Hk). }
  split; [exact Hv|]. split; [exact Hl|]. split.
  - intros Hstart Hright.
    set (q := to_int (fdiv (rf_x rect) (tileWidth (map d)))).
    assert (Hq : startX fdiv (map d) rect = q * tileWidth (map d)) by reflexivity.
    assert (Hle : q <= width (map d)) by nia.
    specialize (Hv (Z.to_nat (width (map d) - q))).
    replace (startX fdiv (map d) rect
             + Z.of_nat (Z.to_nat (width (map d) - q)) * tileWidth (map d))
      with (width (map d) * tileWidth (map d)) in Hv by (rewrite Hq; nia).
    apply Hv. unfold endX. lia.
  - intros Hstart Hbottom.
    set (q := to_int (fdiv (rf_y rect) (tileHeight (map d)))).
    assert (Hq : startY fdiv (map d) rect = q * tileHeight (map d)) by reflexivity.
    assert (Hle : q <= height (map d)) by nia.
    specialize (Hl (Z.to_nat (height (map d) - q))).
    replace (startY fdiv (map d) rect
             + Z.of_nat (Z.to_nat (height (map d) - q)) * tileHeight (map d))
      with (height (map d) * tileHeight (map d)) in Hl by (rewrite Hq; nia).
    apply Hl. unfold endY. lia.
Qed.

Lemma foreground_fits_all :
  foreground_fits exact_div exact_add map1 exposed_all.
Proof. unfold foreground_fits. repeat split; vm_compute; discriminate. Qed.

Lemma drawForeground_no_gap_witness :
  foreground_fits exact_div exact_add (map doc1) exposed_all /\
  exists cmds,
    drawForeground exact_div exact_add 5 exposed_all scene1 = Ok cmds /\
    In (DrawLine 128 0 128 48) cmds /\ In (DrawLine 0 48 128 48) cmds.
Proof.
  split; [exact foreground_fits_all|].
  eexists. split; [vm_compute; reflexivity|].
  destruct (proj2 (drawForeground_no_gap exact_div exact_add exposed_all scene1
                     doc1 eq_refl eq_refl eq_refl eq_refl foreground_fits_all)
              5%nat _ eq_refl) as (_ & _ & Hr & Hb).
  split; [apply Hr|apply Hb]; first [reflexivity | vm_compute; discriminate].
Defined.

(** ** Paint strokes over several calls *)

Lemma runs_app (a b : list Call) : forall s : t,
  runs (a ++ b) s = (s1 <- runs a s ;; runs b s1).
Proof.
  induction a as [|c a IH]; intros s; cbn [app runs].
  - reflexivity.
  - destruct (run c s) as [s1| |]; cbn [bind]; [apply IH|reflexivity|reflexivity].
Qed.

(** X15.  A paint stroke that has begun is ended by the next mouse release,
    whatever is called in between: as long as no release is among the
    calls, [mPainting] stays true (the pointer may leave the scene, the
    document may be replaced or taken away), and the release that follows
    calls [endPaint] once and clears [mPainting]. *)
Theorem stroke_ends_at_release (cs : list Call) : forall s s1 : t,
  mPainting s = true ->
  Forall (fun c => c <> CallMouseReleaseEvent) cs ->
  runs cs s = Ok s1 ->
  mPainting s1 = true /\
  exists s2,
    mouseReleaseEvent s1 = Ok s2 /\
    paintCalls s2 = paintCalls s1 ++ [EndPaint] /\
    mPainting s2 = false.
Proof.
  induction cs as [|c cs IH]; intros s s1 Hp Hcs; cbn [runs].
  - intros [= <-]. split; [exact Hp|].
    unfold mouseReleaseEvent. rewrite Hp. eexists. repeat split.
  - destruct (run c s) as [s'| |] eqn:E; cbn [bind]; try discriminate.
    intros Hrest. inversion Hcs as [|? ? Hc Hcs']; subst.
    apply (IH s' s1); trivial.
    apply run_paint in E.
    destruct E as [[E _]|[(_ & _ & E & _)|(E & _)]]; congruence.
Qed.

Lemma stroke_ends_at_release_witness :
  mPainting scene_painting = true /\
  exists s1 s2,
    runs [CallEvent {| type := Leave; handledByBase := false |};
          CallSetMapDocument None] scene_painting = Ok s1 /\
    mouseReleaseEvent s1 = Ok s2 /\
    paintCalls s2 = paintCalls s1 ++ [EndPaint].
Proof.
  split; [reflexivity|].
  assert (exists s1,
            runs [CallEvent {| type := Leave; handledByBase := false |};
                  CallSetMapDocument None] scene_painting = Ok s1)
    as [s1 Hs1] by (eexists; vm_compute; reflexivity).
  destruct (stroke_ends_at_release
              [CallEvent {| type := Leave; handledByBase := false |};
               CallSetMapDocument None] scene_painting s1 eq_refl)
    as (_ & s2 & H1 & H2 & _);
    [repeat constructor; discriminate | exact Hs1 |].
  exists s1, s2. split; [exact Hs1|]. split; [exact H1|exact H2].
Defined.

Lemma presses (n : nat) : forall s : t,
  visible (mBrush s) = true ->
  exists s',
    runs (repeat CallMousePressEvent (S n)) s = Ok s' /\
    paintCalls s' = paintCalls s ++ repeat BeginPaint (S n) /\
    mPainting s' = true.
Proof.
  induction n as [|n IH]; intros s Hv.
  - cbn [repeat runs run]. unfold mousePressEvent. rewrite Hv. cbn [bind].
    eexists. repeat split.
  - change (repeat CallMousePressEvent (S (S n)))
      with (CallMousePressEvent :: repeat CallMousePressEvent (S n)).
    cbn [runs run]. unfold mousePressEvent at 1. rewrite Hv. cbn [bind].
    destruct (IH (with_painting true (brushPaint BeginPaint s)) Hv)
      as (s' & -> & Hl & Hp).
    exists s'. split; [reflexivity|]. split; [|exact Hp].
    rewrite Hl. cbn [paintCalls with_painting brushPaint].
    now rewrite <- app_assoc.
Qed.

Lemma releases (m : nat) : forall s : t,
  runs (repeat CallMouseReleaseEvent (S m)) s =
    Ok (if mPainting s then with_painting false (brushPaint EndPaint s) else s).
Proof.
  induction m as [|m IH]; intros s.
  - cbn [repeat runs run]. unfold mouseReleaseEvent.
    now destruct (mPainting s).
  - change (repeat CallMouseReleaseEvent (S (S m)))
      with (CallMouseReleaseEvent :: repeat CallMouseReleaseEvent (S m)).
    cbn [runs run]. unfold mouseReleaseEvent at 1.
    destruct (mPainting s) eqn:Hp; cbn [bind]; rewrite IH.
    + reflexivity.
    + now rewrite Hp.
Qed.

(** X16.  Presses and releases are not counted against each other: while
    the brush is visible every mouse press calls [beginPaint], but of the
    releases that follow only the first calls [endPaint].  After n + 1
    presses and any number of releases (at least one) the brush has had
    n + 1 calls of [beginPaint] and one of [endPaint]. *)
Theorem presses_then_releases (n m : nat) (s : t) :
  visible (mBrush s) = true ->
  exists s',
    runs (repeat CallMousePressEvent (S n)
            ++ repeat CallMouseReleaseEvent (S m)) s = Ok s' /\
    paintCalls s' = paintCalls s ++ repeat BeginPaint (S n) ++ [EndPaint] /\
    mPainting s' = false.
Proof.
  intros Hv. rewrite runs_app.
  destruct (presses n s Hv) as (s1 & -> & Hl & Hp). cbn [bind].
  rewrite releases, Hp. eexists. split; [reflexivity|].
  cbn [paintCalls mPainting with_painting brushPaint]. rewrite Hl.
  now rewrite <- app_assoc.
Qed.

Lemma presses_then_releases_witness :
  visible (mBrush scene_entered) = true /\
  exists s',
    runs [CallMousePressEvent; CallMousePressEvent;
          CallMouseReleaseEvent; CallMouseReleaseEvent] scene_entered = Ok s' /\
    paintCalls s' = [BeginPaint; BeginPaint; EndPaint].
Proof.
  split; [reflexivity|].
  destruct (presses_then_releases 1 1 scene_entered eq_refl)
    as (s' & H1 & H2 & _).
  exists s'. split; [exact H1|exact H2].
Defined.

(** ** The wheel over several events *)

Lemma wheelEvent_zooms (Zoomable QTreeView : Type)
    (handleWheelDelta : Z -> Zoomable -> Zoomable)
    (baseWheelEvent : TerrainView.QWheelEvent -> QTreeView -> QTreeView)
    (e : TerrainView.QWheelEvent) (v : TerrainView.t Zoomable QTreeView) :
  TerrainView.wheelEvent handleWheelDelta baseWheelEvent e v =
    if zooms e then
      {| TerrainView.mZoomable :=
           handleWheelDelta (TerrainView.delta e) (TerrainView.mZoomable v);
         TerrainView.base := TerrainView.base v;
         TerrainView.calls :=
           TerrainView.calls v
             ++ [TerrainView.HandleWheelDelta (TerrainView.delta e)] |}
    else
      {| TerrainView.mZoomable := TerrainView.mZoomable v;
         TerrainView.base := baseWheelEvent e (TerrainView.base v);
         TerrainView.calls :=
           TerrainView.calls v ++ [TerrainView.QTreeView_wheelEvent e] |}.
Proof.
  unfold TerrainView.wheelEvent, zooms, TerrainView.controlHeld.
  now rewrite land_ControlModifier, negb_involutive.
Qed.

(** X17.  Over any sequence of wheel events the zoomable gets exactly the
    deltas of the events with Control held and a vertical wheel, in order,
    and the base tree view exactly the other events, in order; each event
    goes to one of the two.  A sequence without such an event leaves the
    zoomable as it was. *)
Theorem wheelEvents_split (Zoomable QTreeView : Type)
    (handleWheelDelta : Z -> Zoomable -> Zoomable)
    (baseWheelEvent : TerrainView.QWheelEvent -> QTreeView -> QTreeView)
    (events : list TerrainView.QWheelEvent) :
  forall v : TerrainView.t Zoomable QTreeView,
  let v' := wheelEvents handleWheelDelta baseWheelEvent events v in
  TerrainView.mZoomable v' =
    fold_left (fun z e => handleWheelDelta (TerrainView.delta e) z)
      (filter zooms events) (TerrainView.mZoomable v) /\
  TerrainView.base v' =
    fold_left (fun b e => baseWheelEvent e b)
      (filter (fun e => negb (zooms e)) events) (TerrainView.base v) /\
  TerrainView.calls v' =
    TerrainView.calls v
      ++ List.map (fun e => if zooms e
                            then TerrainView.HandleWheelDelta (TerrainView.delta e)
                            else TerrainView.QTreeView_wheelEvent e) events.
Proof.
  unfold wheelEvents.
  induction events as [|e events IH]; intros v; cbn [fold_left filter List.map].
  - cbv zeta. now rewrite app_nil_r.
  - specialize (IH (TerrainView.wheelEvent handleWheelDelta baseWheelEvent e v)).
    cbv zeta in *. destruct IH as (Hz & Hb & Hc).
    rewrite Hz, Hb, Hc, wheelEvent_zooms.
    destruct (zooms e); cbn [negb fold_left TerrainView.mZoomable
                              TerrainView.base TerrainView.calls];
      rewrite <- app_assoc; repeat split.
Qed.

Example wheelEvents_three :
  wheelEvents TerrainView.zoomBy TerrainView.countEvent
    [TerrainView.plainWheel; TerrainView.ctrlWheel; TerrainView.ctrlTilt]
    TerrainView.view0 =
  {| TerrainView.mZoomable := 112; TerrainView.base := 2%nat;
     TerrainView.calls :=
       [TerrainView.QTreeView_wheelEvent TerrainView.plainWheel;
        TerrainView.HandleWheelDelta 120;
        TerrainView.QTreeView_wheelEvent TerrainView.ctrlTilt] |}.
Proof. reflexivity. Qed.

(** ** When a press paints *)

(** X18.  On a scene object, also after the owner of the document has
    changed it, a mouse press begins a paint stroke only while the brush
    flag is set and a document is present: then, if the brush item is
    visible, it calls [beginPaint] and sets [mPainting]; with the pointer
    outside the scene or without a document the press does nothing at
    all.  Right after [updateBrushVisibility] a press paints exactly when a
    tile layer is the current layer. *)
Theorem press_paints_on_tile_layer :
  (forall s, reachable s ->
     (visible (mBrush s) = true /\ mBrushVisible s = true /\
      mMapDocument s <> None /\
      mousePressEvent s = Ok (with_painting true (brushPaint BeginPaint s)))
     \/
     (visible (mBrush s) = false /\ mousePressEvent s = Ok s)) /\
  (forall s, reachable s ->
     mBrushVisible s = false \/ mMapDocument s = None ->
     mousePressEvent s = Ok s) /\
  (forall s s', updateBrushVisibility s = Ok s' ->
     (tileLayerSelected s' /\
      mousePressEvent s' = Ok (with_painting true (brushPaint BeginPaint s')))
     \/
     (~ tileLayerSelected s' /\ mousePressEvent s' = Ok s')).
Proof.
  assert (Hpress : forall s, reachable s ->
     (visible (mBrush s) = true /\ mBrushVisible s = true /\
      mMapDocument s <> None /\
      mousePressEvent s = Ok (with_painting true (brushPaint BeginPaint s)))
     \/
     (visible (mBrush s) = false /\ mousePressEvent s = Ok s)).
  { intros s Hr. apply reachable_invariant in Hr. destruct Hr as (_ & Hv & _).
    unfold mousePressEvent.
    destruct (visible (mBrush s)) eqn:E; [left|right; now split].
    destruct (Hv eq_refl) as [Hf Hd]. repeat split; assumption. }
  repeat apply conj.
  - exact Hpress.
  - intros s Hr Hout.
    destruct (Hpress s Hr) as [(_ & Hf & Hd & _)|[_ H]]; [|exact H].
    destruct Hout as [Hout|Hout]; congruence.
  - intros s s' H. apply updateBrushVisibility_Ok in H. subst s'.
    unfold mousePressEvent. cbn [mBrush brush_setVisible visible setVisible].
    destruct (brushShown s) eqn:E.
    + left. split; [|reflexivity]. apply brushShown_spec. exact E.
    + right. split; [|reflexivity].
      intros Hsel. apply brushShown_spec in Hsel.
      unfold brushShown in *. cbn in Hsel. congruence.
Qed.

Lemma press_paints_on_tile_layer_witness :
  reachable scene_entered /\
  mousePressEvent scene_entered = Ok scene_painting /\
  paintCalls scene_painting = [BeginPaint].
Proof.
  split; [exact reachable_scene_entered|].
  destruct (proj1 press_paints_on_tile_layer scene_entered
              reachable_scene_entered) as [(_ & _ & _ & H)|[Hv _]];
    [|discriminate Hv].
  split; [|reflexivity]. rewrite H. vm_compute. reflexivity.
Defined.

(** ** Hiding the grid *)

(** X19.  After [setGridVisible(false)] nothing is drawn in the foreground,
    whatever rectangle is exposed; and the call asks for a repaint exactly
    when the grid was visible before. *)
Theorem setGridVisible_false_hides_grid (s : t) :
  exists s',
    setGridVisible false s = Ok s' /\
    (forall fdiv fadd fuel rect, drawForeground fdiv fadd fuel rect s' = Ok []) /\
    repaints s' = repaints s ++ (if mGridVisible s then [UpdateAll] else []).
Proof.
  unfold setGridVisible. destruct (mGridVisible s) eqn:Hg; cbn [Bool.eqb].
  - eexists. split; [reflexivity|]. split; [|reflexivity].
    intros. unfold drawForeground. cbn [mGridVisible update with_gridVisible negb].
    now rewrite orb_true_r.
  - exists s. split; [reflexivity|]. split; [|now rewrite app_nil_r].
    intros. unfold drawForeground. rewrite Hg. now rewrite orb_true_r.
Qed.

(** ** A tile size of zero *)

(** X20.  [mouseMoveEvent] divides by the tile sizes without a test: for a
    move no item accepts over a document whose map has tile width or tile
    height zero it is undefined (a division by zero).  A move that an item
    accepts does not get that far and leaves the scene as it was. *)
Theorem mouseMoveEvent_zero_tile (s : t) (d : MapDocument)
    (e : QGraphicsSceneMouseEvent) :
  mMapDocument s = Some d ->
  tileWidth (map d) = 0 \/ tileHeight (map d) = 0 ->
  mouseMoveEvent e s =
    if acceptedByBase e then Ok s else Undefined DivByZero.
Proof.
  intros Hd Hz. unfold mouseMoveEvent. rewrite Hd. cbn [is_null].
  destruct (acceptedByBase e); [reflexivity|].
  cbn [deref bind]. unfold int_div.
  destruct Hz as [-> | Hh].
  - reflexivity.
  - rewrite Hh. destruct (tileWidth (map d) =? 0); reflexivity.
Qed.

Lemma mouseMoveEvent_zero_tile_witness :
  mMapDocument scene_flat = Some doc_flat /\
  mouseMoveEvent move1 scene_flat = Undefined DivByZero.
Proof.
  split; [reflexivity|].
  exact (mouseMoveEvent_zero_tile scene_flat doc_flat move1 eq_refl
           (or_introl eq_refl)).
Defined.
